(** * CostWatch: the cost-retrieval pipeline of [cost_fetcher.py] and the
    start-up strategy selection of [main.py]

    A shallow embedding of the Python sources.

    Conventions of the embedding.
    - A Python [float] carrying a money amount is an exact rational ([Q]):
      sums, products and comparisons are the exact ones and [round(x, 2)]
      rounds the exact value to the nearest hundredth, ties to even.  NaN,
      the infinities and the negative zero are not represented: statements
      about the sign of a rounded amount are made for amounts that are not
      negative.
    - A Python [str] is a [string] of bytes; [str.lower] acts on the ASCII
      letters.
    - A [dict] whose iteration order matters ([service_cost_map]) is an
      insertion-ordered association list; a [dict] used only through
      [get] ([activity]) is a [gmap].
    - The outside world (boto3 clients, the random generator, the clock) is
      an explicit argument; a call that can raise returns a [result].  The
      exceptions are those that [except Exception] catches.
    - What the sources [print] is not part of the model; what [main]
      prints is. *)

From Stdlib Require Import Ascii String QArith Qround Qabs Lqa.
From stdpp Require Import gmap strings list fin_maps sorting pretty.

Local Open Scope string_scope.
Local Open Scope list_scope.
Local Open Scope Z_scope.

(* ------------------------------------------------------------------ *)
(** ** Exceptions *)

(** An exception value: its class, as far as the handlers of the program
    distinguish classes ([except ImportError] against [except Exception]),
    and [str(e)]. *)
Record exn : Type := MkExn {
  exn_is_import_error : bool;
  exn_msg : string
}.

Inductive result (A : Type) : Type :=
| Ok (a : A)
| Raise (e : exn).
Arguments Ok {A} a.
Arguments Raise {A} e.

Definition bind {A B : Type} (m : result A) (k : A → result B) : result B :=
  match m with
  | Ok a => k a
  | Raise e => Raise e
  end.

Notation "'let?' x ':=' m 'in' k" := (bind m (fun x => k))
  (at level 10, x name, m at level 100, k at level 200).
Notation "'let?' ' p ':=' m 'in' k" := (bind m (fun p => k))
  (at level 10, p pattern, m at level 100, k at level 200).

(** [try: body except Exception: handler]. *)
Definition try_except {A : Type} (body : result A) (handler : exn → result A)
  : result A :=
  match body with
  | Ok a => Ok a
  | Raise e => handler e
  end.

(** Monadic left-to-right loop: [for x in xs: acc = step(acc, x)], where a
    step may raise. *)
Fixpoint for_each {A S : Type} (step : S → A → result S) (xs : list A) (acc : S)
  : result S :=
  match xs with
  | [] => Ok acc
  | x :: xs' => let? acc' := step acc x in for_each step xs' acc'
  end.

(* ------------------------------------------------------------------ *)
(** ** Numbers *)

(** [x < y] on floats, as a boolean. *)
Definition Qlt_bool (x y : Q) : bool := negb (Qle_bool y x).

(** Nearest integer, ties to the even neighbour. *)
Definition round_half_even (x : Q) : Z :=
  let n := Qnum x in
  let d := Z.pos (Qden x) in
  let f := n / d in
  match 2 * (n mod d) ?= d with
  | Lt => f
  | Gt => f + 1
  | Eq => if Z.even f then f else f + 1
  end.

(** [round(x, 2)]. *)
Definition round2 (x : Q) : Q := round_half_even (x * 100) # 100.

(** [sum(xs)]: Python adds left to right, starting from [0]. *)
Definition py_sum (xs : list Q) : Q := fold_left Qplus xs 0%Q.

(* ------------------------------------------------------------------ *)
(** ** Strings *)

Definition lower_ascii (c : ascii) : ascii :=
  let n := nat_of_ascii c in
  if (65 <=? n)%nat && (n <=? 90)%nat then ascii_of_nat (n + 32) else c.

(** [s.lower()]. *)
Fixpoint lower (s : string) : string :=
  match s with
  | EmptyString => EmptyString
  | String c s' => String (lower_ascii c) (lower s')
  end.

(** [s.startswith(p)]. *)
Fixpoint startswith (p s : string) : bool :=
  match p, s with
  | EmptyString, _ => true
  | String a p', String b s' => if Ascii.eqb a b then startswith p' s' else false
  | String _ _, EmptyString => false
  end.

(** [needle in s]. *)
Fixpoint contains (needle s : string) : bool :=
  startswith needle s ||
  match s with
  | EmptyString => false
  | String _ s' => contains needle s'
  end.

(** [s.replace(old, new)] for a non-empty [old]: the occurrences are found
    left to right, without overlap.  [skip] counts the characters of a
    matched occurrence that are still to be dropped. *)
Fixpoint replace_from (old new : string) (skip : nat) (s : string) : string :=
  match s with
  | EmptyString => EmptyString
  | String c s' =>
      match skip with
      | S k => replace_from old new k s'
      | O =>
          if startswith old s
          then (new ++ replace_from old new (String.length old - 1) s')%string
          else String c (replace_from old new 0 s')
      end
  end.

Definition replace (old new s : string) : string := replace_from old new 0 s.

(* ------------------------------------------------------------------ *)
(** ** [CostData] and [get_top_services] *)

Record CostData : Type := MkCostData {
  month_to_date : Q;
  top_services : list (string * Q * nat);
  last_updated : nat
}.

(** [sorted(xs, key=key, reverse=True)].  Python's sort is stable, and so
    is its reversed form: elements with equal keys keep their input order.
    The embedding is the insertion sort with that behaviour; [ltb] is [<] on
    the keys. *)
Section Sorted.
Context {A K : Type} (key : A → K) (ltb : K → K → bool).

(** One step: [x] stood before every element of [l] in the input, so it
    goes in front of the first element whose key is not strictly greater
    than its own. *)
Fixpoint insert_desc (x : A) (l : list A) : list A :=
  match l with
  | [] => [x]
  | y :: l' => if ltb (key x) (key y) then y :: insert_desc x l' else x :: l
  end.

Definition sorted_desc (xs : list A) : list A := foldr insert_desc [] xs.
End Sorted.

(** [l[:n]] for a Python [int] [n]: a negative [n] counts from the end. *)
Definition slice_to {A : Type} (l : list A) (n : Z) : list A :=
  if n <? 0 then take (Z.to_nat (Z.of_nat (length l) + n)) l
  else take (Z.to_nat n) l.

Definition get_top_services (services : list (string * Q)) (limit : Z)
  : list (string * Q) :=
  let sorted_services := sorted_desc snd Qlt_bool services in
  slice_to sorted_services limit.

(** The default of [limit]. *)
Definition default_limit : Z := 10.

(* ------------------------------------------------------------------ *)
(** ** The outside world *)

(** CloudTrail [lookup_events]: the response, of which the program reads
    [response.get('Events', [])]. *)
Record LookupResponse : Type := MkLookupResponse {
  Events : option (list string)
}.

(** The CloudTrail client.  The first argument of [lookup_events] is the
    number of calls made before this one, so that two calls for the same
    event source need not answer alike. *)
Record CloudTrailClient : Type := MkCloudTrailClient {
  lookup_events : nat → string → result LookupResponse
}.

(** Cost Explorer [get_cost_and_usage]. [Amount] is the outcome of
    [float(group['Metrics']['UnblendedCost']['Amount'])]. *)
Record CEGroup : Type := MkCEGroup {
  Keys : list string;
  Amount : result Q
}.

Record CEResult : Type := MkCEResult {
  Groups : option (list CEGroup)
}.

Record CEResponse : Type := MkCEResponse {
  ResultsByTime : option (list CEResult)
}.

(** The Cost Explorer client: [get_cost_and_usage period group_by], with the
    period as [(Start, End)] and the keys of [GroupBy]. *)
Record CEClient : Type := MkCEClient {
  get_cost_and_usage : string * string → list string → result CEResponse
}.

(** CloudWatch [get_metric_statistics]. *)
Record Datapoint : Type := MkDatapoint {
  Timestamp : Z;
  Maximum : Q
}.

Record MetricResponse : Type := MkMetricResponse {
  Datapoints : list Datapoint
}.

(** The CloudWatch client: [get_metric_statistics dimensions]. *)
Record CloudWatchClient : Type := MkCloudWatchClient {
  get_metric_statistics : list (string * string) → result MetricResponse
}.

Record World : Type := MkWorld {
  boto3_installed : bool;
  client_cloudtrail : result CloudTrailClient;   (* boto3.client('cloudtrail') *)
  client_ce : result CEClient;                   (* boto3.client('ce') *)
  client_cloudwatch : result CloudWatchClient;   (* boto3.client('cloudwatch', ...) *)
  month_start : string;                          (* today.replace(day=1).isoformat() *)
  today : string;                                (* today.isoformat() *)
  now : nat                                      (* datetime.now() *)
}.

(** [import boto3]. *)
Definition import_boto3 (w : World) : result unit :=
  if boto3_installed w then Ok tt
  else Raise (MkExn true "No module named 'boto3'").

(* ------------------------------------------------------------------ *)
(** ** [fetch_service_activity] *)

Definition SERVICE_TO_EVENT_SOURCE : gmap string string :=
  list_to_map [
    ("Amazon EC2", "ec2.amazonaws.com");
    ("Amazon S3", "s3.amazonaws.com");
    ("Amazon RDS", "rds.amazonaws.com");
    ("AWS Lambda", "lambda.amazonaws.com");
    ("Amazon CloudFront", "cloudfront.amazonaws.com");
    ("Amazon DynamoDB", "dynamodb.amazonaws.com");
    ("Amazon ECS", "ecs.amazonaws.com");
    ("Amazon SQS", "sqs.amazonaws.com");
    ("Amazon SNS", "sns.amazonaws.com");
    ("AWS Fargate", "ecs.amazonaws.com");
    ("Amazon EKS", "eks.amazonaws.com");
    ("Amazon ElastiCache", "elasticache.amazonaws.com");
    ("Amazon Redshift", "redshift.amazonaws.com");
    ("AWS Glue", "glue.amazonaws.com");
    ("Amazon CloudWatch", "monitoring.amazonaws.com");
    ("AWS Key Management Service", "kms.amazonaws.com");
    ("Amazon Route 53", "route53.amazonaws.com");
    ("Amazon API Gateway", "apigateway.amazonaws.com");
    ("AWS Secrets Manager", "secretsmanager.amazonaws.com");
    ("Amazon Elastic Load Balancing", "elasticloadbalancing.amazonaws.com")
  ].

(** The heuristic of the lookup miss:
    [service_name.lower().replace("amazon ", "").replace("aws ", "").replace(" ", "")]
    followed by the suffix. *)
Definition derive_event_source (service_name : string) : string :=
  let simplified :=
    replace " " "" (replace "aws " "" (replace "amazon " "" (lower service_name))) in
  (simplified ++ ".amazonaws.com")%string.

(** [SERVICE_TO_EVENT_SOURCE.get(service_name)], then the heuristic
    [if not event_source]: on [None] and on the empty string. *)
Definition event_source_for (service_name : string) : string :=
  match SERVICE_TO_EVENT_SOURCE !! service_name with
  | Some event_source =>
      if String.eqb event_source "" then derive_event_source service_name
      else event_source
  | None => derive_event_source service_name
  end.

(** The body of the inner [try]: one bounded query, and the number of
    events it returned. *)
Definition count_events (r : result LookupResponse) : result nat :=
  let? response := r in Ok (length (default [] (Events response))).

(** The inner [try ... except Exception: activity[service_name] = 0]. *)
Definition activity_of (r : result LookupResponse) : nat :=
  match count_events r with
  | Ok n => n
  | Raise _ => 0%nat
  end.

(** One turn of the loop over [service_names]; the state is the dictionary
    and the number of queries issued so far. *)
Definition activity_step (client : CloudTrailClient)
    (st : gmap string nat * nat) (service_name : string)
  : result (gmap string nat * nat) :=
  let '(activity, calls) := st in
  let event_source := event_source_for service_name in
  let? n := try_except (count_events (lookup_events client calls event_source))
                       (fun _ => Ok 0%nat) in
  Ok (<[service_name := n]> activity, S calls).

(** [{name: 0 for name in service_names}]. *)
Definition all_zero (service_names : list string) : gmap string nat :=
  foldl (fun m name => <[name := 0%nat]> m) ∅ service_names.

Definition fetch_service_activity (w : World) (service_names : list string)
  : result (gmap string nat) :=
  try_except
    (let? _ := import_boto3 w in
     let? client := client_cloudtrail w in
     let? '(activity, _) := for_each (activity_step client) service_names (∅, 0%nat) in
     Ok activity)
    (fun e =>
       if exn_is_import_error e then Ok (all_zero service_names)
       else Ok (all_zero service_names)).


(* ------------------------------------------------------------------ *)
(** ** The Cost Explorer sources *)

(** The negligible threshold, the literal [0.001]. *)
Definition negligible : Q := 1 # 1000.

(** [response.get('ResultsByTime', [])] and [result.get('Groups', [])]. *)
Definition results_of (response : CEResponse) : list CEResult :=
  default [] (ResultsByTime response).
Definition groups_of (r : CEResult) : list CEGroup :=
  default [] (Groups r).

(** The two nested loops over a response. *)
Definition for_each_group {S : Type} (step : S → CEGroup → result S)
    (response : CEResponse) (acc : S) : result S :=
  for_each (fun acc r => for_each step (groups_of r) acc) (results_of response) acc.

(** [keys[i]]. *)
Definition key_at (keys : list string) (i : nat) : result string :=
  match keys !! i with
  | Some k => Ok k
  | None => Raise (MkExn false "list index out of range")
  end.

(** [if name not in m: m[name] = 0.0] followed by [m[name] += cost], on an
    insertion-ordered dictionary. *)
Fixpoint dict_add (m : list (string * Q)) (name : string) (cost : Q)
  : list (string * Q) :=
  match m with
  | [] => [(name, (0 + cost)%Q)]
  | (k, v) :: m' =>
      if String.eqb k name then (k, (v + cost)%Q) :: m'
      else (k, v) :: dict_add m' name cost
  end.

(** The loop [for service_name, cost in service_cost_map.items(): if cost >
    0.001: service_costs.append((service_name, round(cost, 2)))]. *)
Fixpoint drop_negligible (items : list (string * Q)) : list (string * Q) :=
  match items with
  | [] => []
  | (service_name, cost) :: rest =>
      if Qlt_bool negligible cost
      then (service_name, round2 cost) :: drop_negligible rest
      else drop_negligible rest
  end.

(** The aggregation step of [fetch_cost_explorer_services] and of
    [fetch_november_costs]. *)
Definition by_service_step (m : list (string * Q)) (group : CEGroup)
  : result (list (string * Q)) :=
  let? service_name := key_at (Keys group) 0 in
  let? cost := Amount group in
  Ok (dict_add m service_name cost).

(** [not s] for an optional string argument. *)
Definition falsy (s : option string) : bool :=
  match s with
  | None => true
  | Some v => String.eqb v ""
  end.

Definition fetch_cost_explorer_services (w : World)
    (start_date end_date : option string) : result (list (string * Q)) :=
  try_except
    (let? _ := import_boto3 w in
     let? client := client_ce w in
     let period :=
       if falsy start_date || falsy end_date then (month_start w, today w)
       else (default "" start_date, default "" end_date) in
     let? response := get_cost_and_usage client period ["SERVICE"] in
     let? service_cost_map := for_each_group by_service_step response [] in
     Ok (drop_negligible service_cost_map))
    (fun _ => Ok []).

Definition boto3_required : string :=
  "boto3 is required for AWS integration. Install with: pip install boto3".

Definition credentials_not_found : string :=
  "AWS credentials not found. Please configure credentials:
1. Set AWS_ACCESS_KEY_ID and AWS_SECRET_ACCESS_KEY environment variables, or
2. Configure ~/.aws/credentials file, or
3. Use AWS IAM role if running on EC2".

(** The handlers shared by the three live sources:
    [except ImportError] and [except Exception as e]. *)
Definition reraise {A : Type} (e : exn) : result A :=
  if exn_is_import_error e then Raise (MkExn false boto3_required)
  else
    let error_msg := exn_msg e in
    if contains "credentials" (lower error_msg)
       || contains "NoCredentialsError" error_msg
    then Raise (MkExn false credentials_not_found)
    else Raise e.

(** [(name, cost, activity_data.get(name, 0)) for name, cost in top_services]. *)
Definition with_activity (activity_data : gmap string nat)
    (top : list (string * Q)) : list (string * Q * nat) :=
  (fun '(name, cost) => (name, cost, default 0%nat (activity_data !! name))) <$> top.

(** The loop of [fetch_november_costs] that filters and totals at once. *)
Fixpoint november_filter (items : list (string * Q))
    (acc : list (string * Q) * Q) : list (string * Q) * Q :=
  match items with
  | [] => acc
  | (service_name, cost) :: rest =>
      let '(service_costs, total_cost) := acc in
      if Qlt_bool negligible cost
      then november_filter rest
             (service_costs ++ [(service_name, round2 cost)], (total_cost + cost)%Q)
      else november_filter rest acc
  end.

Definition fetch_november_costs (w : World) : result CostData :=
  try_except
    (let? _ := import_boto3 w in
     let? client := client_ce w in
     let? response :=
       get_cost_and_usage client ("2025-11-01", "2025-12-01") ["SERVICE"] in
     let? service_cost_map := for_each_group by_service_step response [] in
     let '(service_costs, total_cost) := november_filter service_cost_map ([], 0%Q) in
     let top := get_top_services service_costs default_limit in
     let service_names := top.*1 in
     let activity_data := all_zero service_names in
     Ok (MkCostData (round2 total_cost) (with_activity activity_data top) (now w)))
    reraise.

(** First query of [fetch_aws_costs_before_credits]: the state is
    [(usage_cost, credit_amount)]. *)
Definition record_type_step (acc : Q * Q) (group : CEGroup) : result (Q * Q) :=
  let '(usage_cost, credit_amount) := acc in
  let? record_type := key_at (Keys group) 0 in
  let? cost := Amount group in
  if String.eqb record_type "Usage" then Ok ((usage_cost + cost)%Q, credit_amount)
  else if String.eqb record_type "Credit" then Ok (usage_cost, (credit_amount + cost)%Q)
  else Ok (usage_cost, credit_amount).

(** Second query: the per-service map counts usage only. *)
Definition usage_by_service_step (m : list (string * Q)) (group : CEGroup)
  : result (list (string * Q)) :=
  let keys := Keys group in
  if (2 <=? length keys)%nat then
    let? service_name := key_at keys 0 in
    let? record_type := key_at keys 1 in
    let? cost := Amount group in
    if String.eqb record_type "Usage" && Qlt_bool 0 cost
    then Ok (dict_add m service_name cost)
    else Ok m
  else Ok m.

Definition fetch_aws_costs_before_credits (w : World) : result CostData :=
  try_except
    (let? _ := import_boto3 w in
     let? client := client_ce w in
     let period := (month_start w, today w) in
     let? response := get_cost_and_usage client period ["RECORD_TYPE"] in
     let? '(usage_cost, credit_amount) :=
       for_each_group record_type_step response (0%Q, 0%Q) in
     let? response :=
       get_cost_and_usage client period ["SERVICE"; "RECORD_TYPE"] in
     let? service_cost_map := for_each_group usage_by_service_step response [] in
     let service_costs := drop_negligible service_cost_map in
     let top := get_top_services service_costs default_limit in
     let service_names := top.*1 in
     let? activity_data := fetch_service_activity w service_names in
     Ok (MkCostData (round2 usage_cost) (with_activity activity_data top) (now w)))
    reraise.

(** [fetch_aws_costs] prints the error and raises it again. *)
Definition fetch_aws_costs (w : World) : result CostData :=
  try_except (fetch_aws_costs_before_credits w) (fun e => Raise e).

(* ------------------------------------------------------------------ *)
(** ** [fetch_cloudwatch_billing_metrics] *)

(** [xs[0]]. *)
Definition first_of {A : Type} (xs : list A) : result A :=
  match xs with
  | x :: _ => Ok x
  | [] => Raise (MkExn false "list index out of range")
  end.

(** [if response['Datapoints']: sorted_points = sorted(..., key=lambda x:
    x['Timestamp'], reverse=True); ... sorted_points[0]['Maximum']]:
    [None] when there is no data point. *)
Definition latest_maximum (response : MetricResponse) : result (option Q) :=
  match Datapoints response with
  | [] => Ok None
  | _ :: _ =>
      let sorted_points := sorted_desc Timestamp Z.ltb (Datapoints response) in
      let? p := first_of sorted_points in
      Ok (Some (Maximum p))
  end.

Definition services_to_check : list string := [
  "AmazonEC2"; "AmazonS3"; "AmazonRDS"; "AWSLambda";
  "AmazonCloudFront"; "AmazonDynamoDB"; "AmazonECS";
  "AmazonSQS"; "AmazonSNS"; "AWSDataTransfer";
  "AmazonCloudWatch"; "AWSWAF"; "AWSAmplify";
  "AWSCostExplorer"; "AmazonECR"; "AmazonBedrock";
  "AWSSecretsManager"; "AWSKeyManagementService";
  "AmazonAPIGateway"; "AmazonCognito"; "AmazonTextract";
  "AmazonRekognition"; "AmazonComprehend"; "AWSGlue"
].

(** [service.replace('Amazon', 'Amazon ').replace('AWS', 'AWS ')]. *)
Definition readable_name (service : string) : string :=
  replace "AWS" "AWS " (replace "Amazon" "Amazon " service).

(** The body of the [try] in the per-service loop. *)
Definition service_metric_query (cloudwatch : CloudWatchClient)
    (service_costs : list (string * Q)) (service : string)
  : result (list (string * Q)) :=
  let? response :=
    get_metric_statistics cloudwatch
      [("Currency", "USD"); ("ServiceName", service)] in
  let? latest := latest_maximum response in
  match latest with
  | Some cost =>
      if Qlt_bool negligible cost
      then Ok (service_costs ++ [(readable_name service, round2 cost)])
      else Ok service_costs
  | None => Ok service_costs
  end.

(** One turn of the per-service loop: [except Exception: pass]. *)
Definition service_metric_step (cloudwatch : CloudWatchClient)
    (service_costs : list (string * Q)) (service : string)
  : result (list (string * Q)) :=
  try_except (service_metric_query cloudwatch service_costs service)
             (fun _ => Ok service_costs).

(** The per-service loop over the checklist. *)
Definition service_metric_loop (cloudwatch : CloudWatchClient)
    (services : list string) : result (list (string * Q)) :=
  for_each (service_metric_step cloudwatch) services [].

(** [not service_costs]. *)
Definition is_empty {A : Type} (l : list A) : bool :=
  match l with [] => true | _ :: _ => false end.

Definition fetch_cloudwatch_billing_metrics (w : World) : result CostData :=
  try_except
    (let? _ := import_boto3 w in
     let? cloudwatch := client_cloudwatch w in
     let? response := get_metric_statistics cloudwatch [("Currency", "USD")] in
     let? latest := latest_maximum response in
     let total_cost := default 0%Q latest in
     let? service_costs := service_metric_loop cloudwatch services_to_check in
     let? service_costs :=
       if is_empty service_costs && Qlt_bool 0 total_cost
       then fetch_cost_explorer_services w None None
       else Ok service_costs in
     let top := get_top_services service_costs default_limit in
     let service_names := top.*1 in
     let? activity_data := fetch_service_activity w service_names in
     Ok (MkCostData (round2 total_cost) (with_activity activity_data top) (now w)))
    reraise.

(* ------------------------------------------------------------------ *)
(** ** [fetch_simulated_costs] *)

(** The random generator: [uniform i] is the [i]-th value drawn by
    [random.uniform(0.9, 1.1)], [randint j lo hi] the [j]-th value drawn by
    [random.randint(lo, hi)]. *)
Record Random : Type := MkRandom {
  uniform : nat → Q;
  randint : nat → nat → nat → nat
}.

Definition service_costs_table : list (string * Q) := [
  ("AWS WAF", 148 # 100);
  ("AWS Amplify", 34 # 100);
  ("AWS Cost Explorer", 24 # 100);
  ("Amazon EC2 Container Registry (ECR)", 4 # 100);
  ("Amazon Bedrock AgentCore", 1 # 100);
  ("Amazon S3", 1 # 100);
  ("Amazon CloudWatch", 1 # 100)
]%Q.

Definition activity_ranges : gmap string (nat * nat) :=
  list_to_map [
    ("AWS WAF", (50, 200));
    ("AWS Amplify", (10, 50));
    ("AWS Cost Explorer", (5, 20));
    ("Amazon EC2 Container Registry (ECR)", (20, 80));
    ("Amazon Bedrock AgentCore", (5, 30));
    ("Amazon S3", (100, 500));
    ("Amazon CloudWatch", (200, 800))
  ]%nat.

(** The loop that draws a factor for each row of the table. *)
Definition randomize (rnd : Random) (table : list (string * Q)) : list (string * Q) :=
  imap (fun i '(service, base_cost) =>
          let variation := uniform rnd i in
          (service, round2 (base_cost * variation))) table.

Definition fetch_simulated_costs (rnd : Random) (clock : nat) : CostData :=
  let randomized_costs := randomize rnd service_costs_table in
  let mtd := py_sum (randomized_costs.*2) in
  let top := get_top_services randomized_costs default_limit in
  let top_services_with_activity :=
    imap (fun j '(name, cost) =>
            let '(lo, hi) := default (0, 50)%nat (activity_ranges !! name) in
            (name, cost, randint rnd j lo hi)) top in
  MkCostData (round2 mtd) top_services_with_activity clock.

(* ------------------------------------------------------------------ *)
(** ** [format_currency] and the start-up selection of [main] *)

(** Two decimal digits, zero padded. *)
Definition two_digits (n : Z) : string :=
  if n <? 10 then ("0" ++ pretty n)%string else pretty n.

(** [f"${amount:.2f}"]. *)
Definition format_currency (amount : Q) : string :=
  let cents := Z.abs (round_half_even (amount * 100)) in
  let sign := if Qlt_bool amount 0 then "-" else "" in
  ("$" ++ sign ++ pretty (cents / 100) ++ "." ++ two_digits (cents mod 100))%string.










(* ------------------------------------------------------------------ *)
(** ** Vocabulary of the statements *)

Definition cost_of (entry : string * Q * nat) : Q := snd (fst entry).
Definition name_of (entry : string * Q * nat) : string := fst (fst entry).

(** Descending by cost: no entry is followed by a more expensive one. *)
Definition descending (costs : list Q) : Prop :=
  StronglySorted (fun a b => (b <= a)%Q) costs.

(** Strictly descending by cost: each entry costs less than every entry
    before it. *)
Definition strictly_descending (costs : list Q) : Prop :=
  StronglySorted (fun a b => (b < a)%Q) costs.

(** The entries of a breakdown whose cost equals [c], in their order. *)
Definition with_cost (c : Q) (services : list (string * Q)) : list (string * Q) :=
  filter (fun x => Qeq_bool (snd x) c = true) services.

(** [x] lies within 10% of [base]. *)
Definition within_10_percent (base x : Q) : Prop :=
  ((9 # 10) * base <= x ∧ x <= (11 # 10) * base)%Q.

(** The amounts of the ledger lines of a response whose record type, the
    first key of the group, is [record_type]. *)
Definition ledger_amounts (record_type : string) (response : CEResponse) : list Q :=
  omap (fun g =>
          match Keys g, Amount g with
          | k :: _, Ok cost => if String.eqb k record_type then Some cost else None
          | _, _ => None
          end)
       (concat (groups_of <$> results_of response)).

(** The derivation of the identifier as section 3 of the specification
    words it: "lower-case, strip known prefixes, append a fixed suffix",
    the prefixes being ["amazon "] and ["aws "], and the spaces removed. *)
Fixpoint string_drop (n : nat) (s : string) : string :=
  match n, s with
  | O, _ => s
  | S n', String _ s' => string_drop n' s'
  | S _, EmptyString => EmptyString
  end.

Definition strip_prefix (p s : string) : string :=
  if startswith p s then string_drop (String.length p) s else s.

Definition spec_derive_event_source (service_name : string) : string :=
  let lowered := lower service_name in
  let stripped := strip_prefix "aws " (strip_prefix "amazon " lowered) in
  (replace " " "" stripped ++ ".amazonaws.com")%string.

(** A breakdown made from a per-service map of aggregated costs leaves out
    the negligible: a service whose aggregated cost is below the threshold
    has no entry, and every entry is the rounded cost of a service whose
    aggregated cost is above the threshold. *)
Definition leaves_out_negligible (service_cost_map breakdown : list (string * Q)) : Prop :=
  (∀ name cost, (name, cost) ∈ service_cost_map → (cost < negligible)%Q →
     name ∉ breakdown.*1)
  ∧ (∀ name c, (name, c) ∈ breakdown →
       ∃ cost, (name, cost) ∈ service_cost_map ∧ (negligible < cost)%Q ∧ c = round2 cost).

(** The entry that the per-service loop of the billing-metric source adds
    for one service of the checklist, if any. *)
Definition metric_entry (cloudwatch : CloudWatchClient) (service : string)
  : option (string * Q) :=
  match get_metric_statistics cloudwatch
          [("Currency", "USD"); ("ServiceName", service)] with
  | Ok response =>
      match latest_maximum response with
      | Ok (Some cost) =>
          if Qlt_bool negligible cost then Some (readable_name service, round2 cost)
          else None
      | _ => None
      end
  | Raise _ => None
  end.


(** The total of the base table of the simulated source. *)
Definition base_total : Q := py_sum service_costs_table.*2.

(** A decimal digit and its value. *)
Definition is_digit (c : ascii) : bool :=
  let n := nat_of_ascii c in (48 <=? n)%nat && (n <=? 57)%nat.

Definition digit_value (c : ascii) : Z := Z.of_nat (nat_of_ascii c) - 48.

(** The number of cents that [format_currency] prints, sign apart. *)
Definition cents_of (amount : Q) : Z := Z.abs (round_half_even (amount * 100)).

(** [two_digits n] is made of two digits that spell [n]. *)
Definition spells_two_digits (n : Z) : bool :=
  match two_digits n with
  | String d1 (String d2 EmptyString) =>
      is_digit d1 && is_digit d2 && (n =? 10 * digit_value d1 + digit_value d2)
  | _ => false
  end.

(** All the groups of a response, day after day. *)
Definition all_groups (response : CEResponse) : list CEGroup :=
  concat (groups_of <$> results_of response).

(** A group on which neither [group['Keys'][0]] nor the conversion of the
    amount raises. *)
Definition well_formed (g : CEGroup) : Prop :=
  Keys g ≠ [] ∧ ∃ cost, Amount g = Ok cost.

(** A group on which the second loop of [fetch_aws_costs_before_credits]
    does not raise: the amount is read only when there are two keys. *)
Definition well_formed_keyed (g : CEGroup) : Prop :=
  (2 <= length (Keys g))%nat → ∃ cost, Amount g = Ok cost.

(** [s.endswith(suffix)]. *)
Fixpoint endswith (suffix s : string) : bool :=
  String.eqb s suffix ||
  match s with
  | EmptyString => false
  | String _ s' => endswith suffix s'
  end.

(** The exceptions that a live source lets out: the two texts of the
    handlers, or an exception that is not an [ImportError] and does not
    mention credentials. *)
Definition surfaced (e : exn) : Prop :=
  e = MkExn false boto3_required
  ∨ e = MkExn false credentials_not_found
  ∨ (exn_is_import_error e = false
     ∧ contains "credentials" (lower (exn_msg e)) = false
     ∧ contains "NoCredentialsError" (exn_msg e) = false).

(** What the two handlers of a live source make of an exception raised
    inside the [try]. *)
Definition handled (e : exn) : exn :=
  if exn_is_import_error e then MkExn false boto3_required
  else if contains "credentials" (lower (exn_msg e))
          || contains "NoCredentialsError" (exn_msg e)
       then MkExn false credentials_not_found
       else e.

(** Two worlds that differ in their CloudTrail client at most. *)
Definition same_but_cloudtrail (w w' : World) : Prop :=
  boto3_installed w = boto3_installed w'
  ∧ client_ce w = client_ce w'
  ∧ client_cloudwatch w = client_cloudwatch w'
  ∧ month_start w = month_start w'
  ∧ today w = today w'
  ∧ now w = now w'.

(** [service_cost_map.get(name, 0.0)]. *)
Fixpoint dict_value (m : list (string * Q)) (name : string) : Q :=
  match m with
  | [] => 0%Q
  | (k, v) :: m' => if String.eqb k name then v else dict_value m' name
  end.

(** The amounts that the second loop of [fetch_aws_costs_before_credits]
    adds up for a service: those of its groups of record type "Usage" with
    a positive amount. *)
Definition positive_usage_amounts (service_name : string) (response : CEResponse)
  : list Q :=
  omap (fun g =>
          match Keys g, Amount g with
          | k :: record_type :: _, Ok cost =>
              if String.eqb k service_name && String.eqb record_type "Usage"
                 && Qlt_bool 0 cost
              then Some cost else None
          | _, _ => None
          end)
       (all_groups response).

(** The period that [fetch_cost_explorer_services] queries: the current
    month unless both dates are given. *)
Definition period_of (w : World) (start_date end_date : option string)
  : string * string :=
  if falsy start_date || falsy end_date then (month_start w, today w)
  else (default "" start_date, default "" end_date).

(* ------------------------------------------------------------------ *)
(** ** Sample worlds *)

Module Sample.

Definition exn_throttled : exn := MkExn false "ThrottlingException: Rate exceeded".
Definition exn_no_credentials : exn :=
  MkExn false "NoCredentialsError: Unable to locate credentials".

Definition group (keys : list string) (amount : Q) : CEGroup :=
  MkCEGroup keys (Ok amount).

Definition day (groups : list CEGroup) : CEResult := MkCEResult (Some groups).

(** Two days of a credited account, grouped by record type: usage of
    [10.00] in all, credits of [-4.00]. *)
Definition by_record_type : CEResponse :=
  MkCEResponse (Some [
    day [group ["Usage"] 6; group ["Credit"] (-(5 # 2))];
    day [group ["Usage"] 4; group ["Credit"] (-(3 # 2)); group ["Tax"] (3 # 10)]
  ])%Q.

(** The same two days, grouped by service and record type. *)
Definition by_service_and_record_type : CEResponse :=
  MkCEResponse (Some [
    day [group ["Amazon S3"; "Usage"] 2;
         group ["AWS Lambda"; "Usage"] 4;
         group ["AWS Lambda"; "Credit"] (-(5 # 2))];
    day [group ["Amazon S3"; "Usage"] (1 # 2);
         group ["AWS Glue"; "Usage"] (4 # 10000);
         group ["Amazon EC2"; "Usage"] (7 # 2);
         group ["Amazon EC2"; "Credit"] (-(3 # 2))]
  ])%Q.

(** The same two days, grouped by service. *)
Definition by_service : CEResponse :=
  MkCEResponse (Some [
    day [group ["Amazon S3"] 2; group ["AWS Lambda"] (3 # 2)];
    day [group ["Amazon S3"] (1 # 2); group ["AWS Glue"] (4 # 10000);
         group ["Amazon EC2"] 2]
  ])%Q.

Definition ce : CEClient :=
  MkCEClient (fun _ group_by =>
    match group_by with
    | ["RECORD_TYPE"] => Ok by_record_type
    | ["SERVICE"; "RECORD_TYPE"] => Ok by_service_and_record_type
    | ["SERVICE"] => Ok by_service
    | _ => Raise (MkExn false "ValidationException")
    end).

(** CloudTrail answers every query with three events, except the one
    for S3, which is throttled. *)
Definition cloudtrail : CloudTrailClient :=
  MkCloudTrailClient (fun _ event_source =>
    if String.eqb event_source "s3.amazonaws.com" then Raise exn_throttled
    else Ok (MkLookupResponse (Some ["e1"; "e2"; "e3"]))).

(** CloudWatch: an aggregate metric whose latest point is [12.346]; the
    query for S3 fails, EC2 has data, the other services have none. *)
Definition cloudwatch : CloudWatchClient :=
  MkCloudWatchClient (fun dimensions =>
    match dimensions with
    | [_] =>
        Ok (MkMetricResponse
              [MkDatapoint 1 12; MkDatapoint 3 (12346 # 1000); MkDatapoint 2 (121 # 10)])
    | [_; (_, service)] =>
        if String.eqb service "AmazonS3" then Raise exn_throttled
        else if String.eqb service "AmazonEC2"
        then Ok (MkMetricResponse [MkDatapoint 2 (7 # 2); MkDatapoint 1 3])
        else Ok (MkMetricResponse [])
    | _ => Raise (MkExn false "ValidationException")
    end)%Q.

(** CloudWatch with an aggregate total but no per-service data at all. *)
Definition cloudwatch_total_only : CloudWatchClient :=
  MkCloudWatchClient (fun dimensions =>
    match dimensions with
    | [_] => Ok (MkMetricResponse [MkDatapoint 1 12; MkDatapoint 3 (12346 # 1000)])
    | [_; (_, service)] =>
        if String.eqb service "AmazonS3" then Raise exn_throttled
        else Ok (MkMetricResponse [])
    | _ => Raise (MkExn false "ValidationException")
    end)%Q.

Definition world : World :=
  MkWorld true (Ok cloudtrail) (Ok ce) (Ok cloudwatch) "2025-12-01" "2025-12-14" 1765.

Definition world_total_only : World :=
  MkWorld true (Ok cloudtrail) (Ok ce) (Ok cloudwatch_total_only)
          "2025-12-01" "2025-12-14" 1765.

(** No boto3. *)
Definition world_without_boto3 : World :=
  MkWorld false (Raise exn_no_credentials) (Raise exn_no_credentials)
          (Raise exn_no_credentials) "2025-12-01" "2025-12-14" 1765.

(** boto3 present, no credentials. *)
Definition world_without_credentials : World :=
  MkWorld true (Raise exn_no_credentials) (Raise exn_no_credentials)
          (Raise exn_no_credentials) "2025-12-01" "2025-12-14" 1765.


(** A generator that always draws the factor [f] and the low end of the
    activity range. *)
Definition constant_random (f : Q) : Random :=
  MkRandom (fun _ => f) (fun _ lo _ => lo).

(** The sample account when CloudTrail cannot be reached. *)
Definition world_without_cloudtrail : World :=
  MkWorld true (Raise exn_throttled) (Ok ce) (Ok cloudwatch)
          "2025-12-01" "2025-12-14" 1765.

(** CloudWatch without any data point. *)
Definition world_without_metrics : World :=
  MkWorld true (Ok cloudtrail) (Ok ce)
          (Ok (MkCloudWatchClient (fun _ => Ok (MkMetricResponse []))))
          "2025-12-01" "2025-12-14" 1765.

(** A month whose only usage line is a refund. *)
Definition world_refund : World :=
  MkWorld true (Ok cloudtrail)
          (Ok (MkCEClient (fun _ group_by =>
             match group_by with
             | ["RECORD_TYPE"] =>
                 Ok (MkCEResponse (Some [day [group ["Usage"] (-(5 # 2))]]))
             | _ =>
                 Ok (MkCEResponse
                       (Some [day [group ["Amazon S3"; "Usage"] (-(5 # 2))]]))
             end)%Q))
          (Ok cloudwatch) "2025-12-01" "2025-12-14" 1765.

(** An account whose Cost Explorer and CloudWatch clients are throttled. *)
Definition world_throttled : World :=
  MkWorld true (Ok cloudtrail) (Raise exn_throttled) (Raise exn_throttled)
          "2025-12-01" "2025-12-14" 1765.

(** A generator that draws the high end of every range. *)
Definition high_random : Random :=
  MkRandom (fun _ => (11 # 10)%Q) (fun _ _ hi => hi).

End Sample.

(* ================================================================== *)
(** * Properties *)

(** ** Evaluation on sample inputs *)

Example event_source_ex :
  event_source_for "AWS Fargate" = "ecs.amazonaws.com"
  ∧ event_source_for "AWS Cost Explorer" = "costexplorer.amazonaws.com"
  ∧ event_source_for "Savings Plans for AWS Compute usage"
    = "savingsplansforcomputeusage.amazonaws.com".
Proof. vm_compute. auto. Qed.

Example format_currency_ex :
  format_currency (3 # 2) = "$1.50" ∧ format_currency 1000 = "$1000.00"
  ∧ format_currency 0 = "$0.00" ∧ format_currency (-(1 # 1000)) = "$-0.00".
Proof. vm_compute. auto. Qed.

Example replace_ex : replace "aws " "" "laws of aws x" = "lof x".
Proof. reflexivity. Qed.

Example round2_ex :
  round2 (1332 # 1000) = (133 # 100)%Q ∧ round2 (125 # 1000) = (12 # 100)%Q
  ∧ round2 (-(135 # 1000)) = (-14 # 100)%Q.
Proof. vm_compute. auto. Qed.

Example get_top_services_ex :
  get_top_services [("a", 1%Q); ("b", 2%Q); ("c", 1%Q); ("d", 3%Q)] 3
  = [("d", 3%Q); ("b", 2%Q); ("a", 1%Q)].
Proof. reflexivity. Qed.

Example spec_derive_ex :
  spec_derive_event_source "AWS Cost Explorer" = "costexplorer.amazonaws.com".
Proof. vm_compute. reflexivity. Qed.

(* ------------------------------------------------------------------ *)
(** ** The error monad *)

Lemma bind_ok {A B : Type} (m : result A) (k : A → result B) (b : B) :
  bind m k = Ok b → ∃ a, m = Ok a ∧ k a = Ok b.
Proof. destruct m as [a|e]; simpl; [eauto | discriminate]. Qed.

Lemma for_each_app {A S : Type} (step : S → A → result S) (xs ys : list A) (acc : S) :
  for_each step (xs ++ ys) acc = bind (for_each step xs acc) (for_each step ys).
Proof.
  revert acc. induction xs as [|x xs IH]; intros acc; simpl; [done|].
  destruct (step acc x) as [acc'|e]; simpl; [apply IH | done].
Qed.

Lemma for_each_concat {A S : Type} (step : S → A → result S) (xss : list (list A)) (acc : S) :
  for_each (fun acc xs => for_each step xs acc) xss acc = for_each step (concat xss) acc.
Proof.
  revert acc. induction xss as [|xs xss IH]; intros acc; simpl; [done|].
  rewrite for_each_app. destruct (for_each step xs acc); simpl; [apply IH | done].
Qed.

Lemma for_each_group_flat {S : Type} (step : S → CEGroup → result S)
    (response : CEResponse) (acc : S) :
  for_each_group step response acc
  = for_each step (concat (groups_of <$> results_of response)) acc.
Proof.
  unfold for_each_group. rewrite <- for_each_concat.
  generalize (results_of response). intros rs. revert acc.
  induction rs as [|r rs IH]; intros acc; simpl; [done|].
  destruct (for_each step (groups_of r) acc); simpl; [apply IH | done].
Qed.

Lemma reraise_raises {A : Type} (e : exn) : ∃ e', @reraise A e = Raise e'.
Proof.
  unfold reraise. destruct (exn_is_import_error e); [eauto|].
  destruct (_ || _); eauto.
Qed.

Lemma try_reraise_ok {A : Type} (body : result A) (a : A) :
  try_except body reraise = Ok a → body = Ok a.
Proof.
  destruct body as [a'|e]; simpl; [done|].
  destruct (@reraise_raises A e) as [e' ->]. discriminate.
Qed.

(* ------------------------------------------------------------------ *)
(** ** Comparisons and rounding *)

Lemma Qlt_bool_true (x y : Q) : Qlt_bool x y = true ↔ (x < y)%Q.
Proof.
  unfold Qlt_bool. rewrite negb_true_iff. split.
  - intros H. apply Qnot_le_lt. intros Hle. apply Qle_bool_iff in Hle. congruence.
  - intros H. destruct (Qle_bool y x) eqn:E; [|done].
    apply Qle_bool_iff in E. exfalso. exact (Qlt_not_le _ _ H E).
Qed.

Lemma Qlt_bool_false (x y : Q) : Qlt_bool x y = false ↔ (y <= x)%Q.
Proof.
  unfold Qlt_bool. rewrite negb_false_iff. apply Qle_bool_iff.
Qed.

(** The rounded value is an integer at distance at most one half. *)
Lemma round_half_even_spec (x : Q) :
  let d := Z.pos (Qden x) in
  2 * d * round_half_even x - d <= 2 * Qnum x <= 2 * d * round_half_even x + d.
Proof.
  unfold round_half_even. simpl.
  set (n := Qnum x). set (d := Z.pos (Qden x)).
  assert (Hd : 0 < d) by (unfold d; lia).
  pose proof (Z.div_mod n d ltac:(lia)) as Hdm.
  pose proof (Z.mod_pos_bound n d Hd) as Hm.
  generalize dependent (n mod d). generalize dependent (n / d).
  intros q r Hdm Hm. clearbody n d.
  destruct (2 * r ?= d) eqn:E.
  - apply Z.compare_eq in E. destruct (Z.even q); lia.
  - pose proof (proj1 (Z.compare_lt_iff _ _) E). lia.
  - pose proof (proj1 (Z.compare_gt_iff _ _) E). lia.
Qed.

(** [round_half_even] depends on the value of the rational only. *)
Lemma round_half_even_proper (x y : Q) :
  (x == y)%Q → round_half_even x = round_half_even y.
Proof.
  intros Hxy. pose proof (Qfloor_comp x y Hxy) as Hq.
  unfold Qeq in Hxy. unfold round_half_even.
  destruct x as [a b'], y as [c d']. simpl in *.
  set (b := Z.pos b') in *. set (d := Z.pos d') in *.
  assert (Hb : 0 < b) by (unfold b; lia).
  assert (Hd : 0 < d) by (unfold d; lia).
  assert (Hr : (a mod b) * d = (c mod d) * b).
  { rewrite (Z.mod_eq a b), (Z.mod_eq c d) by lia. rewrite Hq. nia. }
  rewrite Hq.
  assert (Hc : (2 * (a mod b) ?= b) = (2 * (c mod d) ?= d)).
  { destruct (2 * (c mod d) ?= d) eqn:E.
    - apply Z.compare_eq in E. apply Z.compare_eq_iff. nia.
    - pose proof (proj1 (Z.compare_lt_iff _ _) E). apply Z.compare_lt_iff. nia.
    - pose proof (proj1 (Z.compare_gt_iff _ _) E). apply Z.compare_gt_iff. nia. }
  rewrite Hc. done.
Qed.

Lemma round2_proper (x y : Q) : (x == y)%Q → round2 x = round2 y.
Proof.
  intros H. unfold round2. f_equal. apply round_half_even_proper.
  rewrite H. reflexivity.
Qed.

(** Rounding an integer number of hundredths changes nothing. *)
Lemma round_half_even_cents (n : Z) : round_half_even ((n # 100) * 100) = n.
Proof.
  rewrite (round_half_even_proper _ (inject_Z n)).
  - unfold round_half_even. simpl. rewrite Z.div_1_r, Z.mod_1_r. done.
  - unfold Qeq. simpl. lia.
Qed.

(* ------------------------------------------------------------------ *)
(** ** The stable descending sort *)

Section SortedFacts.
Context {A K : Type} (key : A → K) (ltb : K → K → bool).

Lemma insert_desc_perm (x : A) (l : list A) :
  insert_desc key ltb x l ≡ₚ x :: l.
Proof.
  induction l as [|y l IH]; simpl; [done|].
  destruct (ltb (key x) (key y)); [|done].
  rewrite IH. apply Permutation_swap.
Qed.

Lemma sorted_desc_perm (l : list A) : sorted_desc key ltb l ≡ₚ l.
Proof.
  induction l as [|x l IH]; simpl; [done|].
  rewrite insert_desc_perm. by rewrite IH.
Qed.

Lemma sorted_desc_length (l : list A) :
  length (sorted_desc key ltb l) = length l.
Proof. by rewrite sorted_desc_perm. Qed.

(** Stability: a family of elements none of which is strictly below
    another (such as the elements of one key) keeps its order. *)
Lemma filter_insert_desc (P : A → Prop) `{!∀ x, Decision (P x)} (x : A) (l : list A) :
  (∀ y, P x → P y → ltb (key x) (key y) = false) →
  filter P (insert_desc key ltb x l) = filter P (x :: l).
Proof.
  intros Hno. induction l as [|y l IH]; simpl; [done|].
  destruct (ltb (key x) (key y)) eqn:E; [|done].
  rewrite !filter_cons in *.
  destruct (decide (P y)) as [Hy|Hy]; destruct (decide (P x)) as [Hx|Hx].
  - rewrite (Hno y Hx Hy) in E. discriminate.
  - by rewrite IH.
  - by rewrite IH.
  - by rewrite IH.
Qed.

Lemma filter_sorted_desc (P : A → Prop) `{!∀ x, Decision (P x)} (l : list A) :
  (∀ x y, P x → P y → ltb (key x) (key y) = false) →
  filter P (sorted_desc key ltb l) = filter P l.
Proof.
  intros Hno. induction l as [|x l IH]; simpl; [done|].
  rewrite filter_insert_desc by auto.
  rewrite !filter_cons. by rewrite IH.
Qed.

(** Sortedness, for any relation [ge] that [ltb] decides in the sense
    below and that is transitive. *)
Context (ge : A → A → Prop).
Hypothesis ge_of_not_lt : ∀ x y, ltb (key x) (key y) = false → ge x y.
Hypothesis ge_of_lt : ∀ x y, ltb (key x) (key y) = true → ge y x.
Hypothesis ge_trans : ∀ x y z, ge x y → ge y z → ge x z.

Lemma insert_desc_sorted (x : A) (l : list A) :
  StronglySorted ge l → StronglySorted ge (insert_desc key ltb x l).
Proof.
  induction 1 as [|y l Hs IH Hall]; simpl.
  - repeat constructor.
  - destruct (ltb (key x) (key y)) eqn:E.
    + constructor; [done|].
      rewrite insert_desc_perm. constructor; [by apply ge_of_lt | done].
    + constructor; [by constructor|].
      constructor; [by apply ge_of_not_lt|].
      eapply Forall_impl; [exact Hall|].
      intros z Hz. eapply ge_trans; [|exact Hz]. by apply ge_of_not_lt.
Qed.

Lemma sorted_desc_sorted (l : list A) : StronglySorted ge (sorted_desc key ltb l).
Proof.
  induction l as [|x l IH]; simpl; [constructor|]. by apply insert_desc_sorted.
Qed.
End SortedFacts.

Lemma StronglySorted_take {A : Type} (R : A → A → Prop) (n : nat) (l : list A) :
  StronglySorted R l → StronglySorted R (take n l).
Proof.
  intros Hs. rewrite <- (take_drop n l) in Hs.
  by apply StronglySorted_app_1_l in Hs.
Qed.

(** A slice is a prefix. *)
Lemma slice_to_take {A : Type} (l : list A) (n : Z) : ∃ k, slice_to l n = take k l.
Proof. unfold slice_to. destruct (n <? 0); eauto. Qed.

Lemma slice_to_nonneg {A : Type} (l : list A) (n : Z) :
  0 <= n → slice_to l n = take (Z.to_nat n) l.
Proof. intros H. unfold slice_to. destruct (n <? 0) eqn:E; [lia | done]. Qed.

Lemma filter_take_prefix {A : Type} (P : A → Prop) `{!∀ x, Decision (P x)}
    (n : nat) (l : list A) :
  filter P (take n l) `prefix_of` filter P l.
Proof.
  exists (filter P (drop n l)). rewrite <- filter_app. by rewrite take_drop.
Qed.

(** The costs of a ranking are descending. *)
Lemma get_top_services_descending (services : list (string * Q)) (limit : Z) :
  descending ((get_top_services services limit).*2).
Proof.
  unfold get_top_services, descending.
  destruct (slice_to_take (sorted_desc snd Qlt_bool services) limit) as [k ->].
  apply (StronglySorted_fmap snd (fun a b : string * Q => (snd b <= snd a)%Q));
    [done|].
  apply StronglySorted_take, sorted_desc_sorted.
  - intros x y H. by apply Qlt_bool_false.
  - intros x y H. apply Qlt_le_weak. by apply Qlt_bool_true.
  - intros x y z Hxy Hyz. eapply Qle_trans; eauto.
Qed.

Lemma with_cost_sorted (c : Q) (services : list (string * Q)) :
  with_cost c (sorted_desc snd Qlt_bool services) = with_cost c services.
Proof.
  unfold with_cost. apply filter_sorted_desc.
  intros x y Hx Hy. apply Qlt_bool_false.
  apply Qeq_bool_iff in Hx, Hy. rewrite Hx, Hy. apply Qle_refl.
Qed.

Lemma get_top_services_stable (services : list (string * Q)) (limit : Z) (c : Q) :
  with_cost c (get_top_services services limit) `prefix_of` with_cost c services.
Proof.
  unfold get_top_services.
  destruct (slice_to_take (sorted_desc snd Qlt_bool services) limit) as [k ->].
  rewrite <- (with_cost_sorted c services). apply filter_take_prefix.
Qed.

Lemma get_top_services_length (services : list (string * Q)) (limit : Z) :
  0 <= limit →
  length (get_top_services services limit)
  = Nat.min (Z.to_nat limit) (length services).
Proof.
  intros H. unfold get_top_services. rewrite slice_to_nonneg by done.
  rewrite length_take, sorted_desc_length. done.
Qed.

(** The ranking is the head of a rearrangement of the input, and nothing
    left out costs more than something kept. *)
Lemma get_top_services_top (services : list (string * Q)) (limit : Z) :
  ∃ rest, get_top_services services limit ++ rest ≡ₚ services
    ∧ ∀ kept left_out, kept ∈ get_top_services services limit → left_out ∈ rest →
        (snd left_out <= snd kept)%Q.
Proof.
  unfold get_top_services.
  destruct (slice_to_take (sorted_desc snd Qlt_bool services) limit) as [k ->].
  exists (drop k (sorted_desc snd Qlt_bool services)). split.
  - rewrite take_drop. apply sorted_desc_perm.
  - assert (Hs : StronglySorted (fun a b : string * Q => (snd b <= snd a)%Q)
                   (sorted_desc snd Qlt_bool services)).
    { apply sorted_desc_sorted.
      - intros x y H. by apply Qlt_bool_false.
      - intros x y H. apply Qlt_le_weak. by apply Qlt_bool_true.
      - intros x y z Hxy Hyz. eapply Qle_trans; eauto. }
    rewrite <- (take_drop k (sorted_desc snd Qlt_bool services)) in Hs.
    intros kept left_out Hk Hl.
    apply (StronglySorted_app_1_elem_of _ _ _ _ _ Hs Hk Hl).
Qed.

Lemma get_top_services_subset (services : list (string * Q)) (limit : Z) (x : string * Q) :
  x ∈ get_top_services services limit → x ∈ services.
Proof.
  unfold get_top_services.
  destruct (slice_to_take (sorted_desc snd Qlt_bool services) limit) as [k ->].
  intros H. apply subseteq_take in H. by rewrite sorted_desc_perm in H.
Qed.

(* ------------------------------------------------------------------ *)
(** ** What a returned snapshot was computed from *)

Lemma import_boto3_ok (w : World) (u : unit) :
  import_boto3 w = Ok u → boto3_installed w = true.
Proof. unfold import_boto3. by destruct (boto3_installed w). Qed.

Lemma fetch_aws_costs_before_credits_ok (w : World) (d : CostData) :
  fetch_aws_costs_before_credits w = Ok d →
  ∃ client response usage_cost credit_amount response' service_cost_map activity_data,
    boto3_installed w = true
    ∧ client_ce w = Ok client
    ∧ get_cost_and_usage client (month_start w, today w) ["RECORD_TYPE"] = Ok response
    ∧ for_each_group record_type_step response (0%Q, 0%Q) = Ok (usage_cost, credit_amount)
    ∧ get_cost_and_usage client (month_start w, today w) ["SERVICE"; "RECORD_TYPE"]
      = Ok response'
    ∧ for_each_group usage_by_service_step response' [] = Ok service_cost_map
    ∧ fetch_service_activity w
        (get_top_services (drop_negligible service_cost_map) default_limit).*1
      = Ok activity_data
    ∧ d = MkCostData (round2 usage_cost)
            (with_activity activity_data
               (get_top_services (drop_negligible service_cost_map) default_limit))
            (now w).
Proof.
  intros H. apply try_reraise_ok in H.
  apply bind_ok in H as (u & Hi & H). apply import_boto3_ok in Hi.
  apply bind_ok in H as (client & Hc & H).
  apply bind_ok in H as (response & Hr & H).
  apply bind_ok in H as ([usage_cost credit_amount] & Hu & H).
  apply bind_ok in H as (response' & Hr' & H).
  apply bind_ok in H as (m & Hm & H).
  apply bind_ok in H as (act & Ha & H).
  injection H as <-.
  exists client, response, usage_cost, credit_amount, response', m, act.
  repeat split; done.
Qed.

Lemma fetch_aws_costs_ok (w : World) (d : CostData) :
  fetch_aws_costs w = Ok d ↔ fetch_aws_costs_before_credits w = Ok d.
Proof. unfold fetch_aws_costs. by destruct (fetch_aws_costs_before_credits w). Qed.

Lemma fetch_november_costs_ok (w : World) (d : CostData) :
  fetch_november_costs w = Ok d →
  ∃ client response service_cost_map,
    boto3_installed w = true
    ∧ client_ce w = Ok client
    ∧ get_cost_and_usage client ("2025-11-01", "2025-12-01") ["SERVICE"] = Ok response
    ∧ for_each_group by_service_step response [] = Ok service_cost_map
    ∧ let service_costs := (november_filter service_cost_map ([], 0%Q)).1 in
      let total_cost := (november_filter service_cost_map ([], 0%Q)).2 in
      let top := get_top_services service_costs default_limit in
      d = MkCostData (round2 total_cost) (with_activity (all_zero top.*1) top) (now w).
Proof.
  intros H. apply try_reraise_ok in H.
  apply bind_ok in H as (u & Hi & H). apply import_boto3_ok in Hi.
  apply bind_ok in H as (client & Hc & H).
  apply bind_ok in H as (response & Hr & H).
  apply bind_ok in H as (m & Hm & H).
  destruct (november_filter m ([], 0%Q)) as [service_costs total_cost] eqn:E.
  injection H as <-.
  exists client, response, m. rewrite E. repeat split; done.
Qed.

Lemma fetch_cloudwatch_billing_metrics_ok (w : World) (d : CostData) :
  fetch_cloudwatch_billing_metrics w = Ok d →
  ∃ cloudwatch response latest loop_costs service_costs activity_data,
    boto3_installed w = true
    ∧ client_cloudwatch w = Ok cloudwatch
    ∧ get_metric_statistics cloudwatch [("Currency", "USD")] = Ok response
    ∧ latest_maximum response = Ok latest
    ∧ service_metric_loop cloudwatch services_to_check = Ok loop_costs
    ∧ (if is_empty loop_costs && Qlt_bool 0 (default 0%Q latest)
       then fetch_cost_explorer_services w None None
       else Ok loop_costs) = Ok service_costs
    ∧ fetch_service_activity w (get_top_services service_costs default_limit).*1
      = Ok activity_data
    ∧ d = MkCostData (round2 (default 0%Q latest))
            (with_activity activity_data (get_top_services service_costs default_limit))
            (now w).
Proof.
  intros H. apply try_reraise_ok in H.
  apply bind_ok in H as (u & Hi & H). apply import_boto3_ok in Hi.
  apply bind_ok in H as (cloudwatch & Hc & H).
  apply bind_ok in H as (response & Hr & H).
  apply bind_ok in H as (latest & Hl & H).
  apply bind_ok in H as (loop_costs & Hloop & H).
  apply bind_ok in H as (service_costs & Hs & H).
  apply bind_ok in H as (act & Ha & H).
  injection H as <-.
  exists cloudwatch, response, latest, loop_costs, service_costs, act.
  repeat split; done.
Qed.

Lemma with_activity_costs (activity_data : gmap string nat) (top : list (string * Q)) :
  cost_of <$> with_activity activity_data top = top.*2.
Proof.
  unfold with_activity. rewrite <- list_fmap_compose.
  apply list_fmap_ext. by intros i [name cost] _.
Qed.

Lemma with_activity_names (activity_data : gmap string nat) (top : list (string * Q)) :
  name_of <$> with_activity activity_data top = top.*1.
Proof.
  unfold with_activity. rewrite <- list_fmap_compose.
  apply list_fmap_ext. by intros i [name cost] _.
Qed.

(** In each of the four sources the costs of [top_services] are those of a
    ranking by [get_top_services] with the default limit. *)
Lemma fetch_simulated_costs_ranked (rnd : Random) (clock : nat) :
  cost_of <$> top_services (fetch_simulated_costs rnd clock)
  = (get_top_services (randomize rnd service_costs_table) default_limit).*2.
Proof.
  unfold fetch_simulated_costs. simpl.
  generalize (get_top_services (randomize rnd service_costs_table) default_limit).
  intros top. rewrite fmap_imap. unfold compose.
  rewrite <- (imap_const snd top). apply imap_ext.
  intros i [name cost] _. simpl.
  by destruct (default (0%nat, 50%nat) (activity_ranges !! name)).
Qed.

Lemma ranked_descending (costs : list (string * Q * nat)) (services : list (string * Q)) :
  cost_of <$> costs = (get_top_services services default_limit).*2 →
  descending (cost_of <$> costs) ∧ (length costs <= 10)%nat.
Proof.
  intros H. split.
  - rewrite H. apply get_top_services_descending.
  - apply (f_equal length) in H. rewrite !length_fmap in H. rewrite H.
    rewrite get_top_services_length by done. unfold default_limit. lia.
Qed.

(* ------------------------------------------------------------------ *)
(** ** The ranking ([get_top_services]) *)

(** With a negative limit the slice counts from the end of the list: the
    ranking of two services with limit [-1] has one entry. *)
Lemma get_top_services_negative_limit :
  get_top_services [("a", 1%Q); ("b", 2%Q)] (-1) = [("b", 2%Q)]
  ∧ ¬ (Z.of_nat (length (get_top_services [("a", 1%Q); ("b", 2%Q)] (-1))) <= -1).
Proof. split; [reflexivity | vm_compute; intros H; by apply H]. Qed.

(** C2, for a limit that is not negative.  The ranking returned by
    [get_top_services] is descending by cost; it has at most [limit]
    entries, and exactly [limit] of them when the input has that many;
    it keeps the entries of any one cost in their input order; it is the
    head of a rearrangement of the input, nothing left out costing more
    than something kept; and it is empty on the empty input.  The function
    is pure: the input list is a value and is not changed. *)
Theorem get_top_services_ranks (services : list (string * Q)) (limit : Z) :
  0 <= limit →
  let ranking := get_top_services services limit in
  descending ranking.*2
  ∧ Z.of_nat (length ranking) <= limit
  ∧ length ranking = Nat.min (Z.to_nat limit) (length services)
  ∧ (∀ c, with_cost c ranking `prefix_of` with_cost c services)
  ∧ (∃ rest, ranking ++ rest ≡ₚ services
       ∧ ∀ kept left_out, kept ∈ ranking → left_out ∈ rest →
           (snd left_out <= snd kept)%Q)
  ∧ get_top_services [] limit = [].
Proof.
  intros Hlimit ranking. split_and!.
  - apply get_top_services_descending.
  - unfold ranking. rewrite get_top_services_length by done. lia.
  - unfold ranking. by apply get_top_services_length.
  - intros c. apply get_top_services_stable.
  - apply get_top_services_top.
  - unfold get_top_services. rewrite slice_to_nonneg by done. simpl. apply take_nil.
Qed.

Lemma get_top_services_ranks_witness :
  0 <= 3
  ∧ let services := [("a", 1%Q); ("b", 2%Q); ("c", 1%Q); ("d", 3%Q); ("e", 1%Q)] in
    let ranking := get_top_services services 3 in
    descending ranking.*2
    ∧ Z.of_nat (length ranking) <= 3
    ∧ length ranking = Nat.min (Z.to_nat 3) (length services)
    ∧ (∀ c, with_cost c ranking `prefix_of` with_cost c services)
    ∧ (∃ rest, ranking ++ rest ≡ₚ services
         ∧ ∀ kept left_out, kept ∈ ranking → left_out ∈ rest →
             (snd left_out <= snd kept)%Q)
    ∧ get_top_services [] 3 = [].
Proof.
  split; [lia|].
  apply (get_top_services_ranks
           [("a", 1%Q); ("b", 2%Q); ("c", 1%Q); ("d", 3%Q); ("e", 1%Q)] 3).
  lia.
Defined.

(* ------------------------------------------------------------------ *)
(** ** The order of [top_services] in a snapshot *)

Lemma strictly_descending_adjacent (l1 l2 : list Q) (a b : Q) :
  strictly_descending (l1 ++ a :: b :: l2) → (b < a)%Q.
Proof.
  intros H. apply StronglySorted_app_1_r in H.
  apply StronglySorted_cons in H as [H _].
  by apply Forall_cons in H as [H _].
Qed.

(** The three cheapest services of the simulated table all cost [0.01]
    whatever the factors: the run with every factor equal to [1] returns
    them side by side. *)
Lemma fetch_simulated_costs_not_strictly_descending :
  cost_of <$> top_services (fetch_simulated_costs (Sample.constant_random 1) 0)
  = [148 # 100; 34 # 100; 24 # 100; 4 # 100; 1 # 100; 1 # 100; 1 # 100]%Q
  ∧ ¬ strictly_descending
        (cost_of <$> top_services (fetch_simulated_costs (Sample.constant_random 1) 0)).
Proof.
  assert (E : cost_of <$> top_services (fetch_simulated_costs (Sample.constant_random 1) 0)
              = [148 # 100; 34 # 100; 24 # 100; 4 # 100; 1 # 100; 1 # 100; 1 # 100]%Q)
    by (vm_compute; reflexivity).
  split; [exact E|]. rewrite E. intros H.
  apply (strictly_descending_adjacent [148 # 100; 34 # 100; 24 # 100; 4 # 100]%Q) in H.
  revert H. apply Qlt_irrefl.
Qed.

(** C5, with "descending" for "strictly descending".  In the snapshot of
    every source (simulated, billing metrics, usage before credits and its
    wrapper [fetch_aws_costs], November) the costs of [top_services] never
    increase along the list, equal costs being allowed side by side, and
    the list has at most ten entries, ten being the default limit that
    every source uses. *)
Theorem top_services_descending_within_limit :
  let ranked (d : CostData) :=
    descending (cost_of <$> top_services d) ∧ (length (top_services d) <= 10)%nat in
  (∀ rnd clock, ranked (fetch_simulated_costs rnd clock))
  ∧ (∀ w d, fetch_cloudwatch_billing_metrics w = Ok d → ranked d)
  ∧ (∀ w d, fetch_aws_costs_before_credits w = Ok d → ranked d)
  ∧ (∀ w d, fetch_aws_costs w = Ok d → ranked d)
  ∧ (∀ w d, fetch_november_costs w = Ok d → ranked d).
Proof.
  intros ranked. unfold ranked.
  assert (Hbefore : ∀ w d, fetch_aws_costs_before_credits w = Ok d →
            descending (cost_of <$> top_services d) ∧ (length (top_services d) <= 10)%nat).
  { intros w d H.
    apply fetch_aws_costs_before_credits_ok in H
      as (? & ? & ? & ? & ? & m & act & _ & _ & _ & _ & _ & _ & _ & ->).
    simpl. eapply ranked_descending, with_activity_costs. }
  repeat split.
  - eapply ranked_descending, fetch_simulated_costs_ranked.
  - eapply ranked_descending, fetch_simulated_costs_ranked.
  - apply fetch_cloudwatch_billing_metrics_ok in H
      as (? & ? & ? & ? & sc & act & _ & _ & _ & _ & _ & _ & _ & ->).
    simpl. eapply ranked_descending, with_activity_costs.
  - apply fetch_cloudwatch_billing_metrics_ok in H
      as (? & ? & ? & ? & sc & act & _ & _ & _ & _ & _ & _ & _ & ->).
    simpl. eapply ranked_descending, with_activity_costs.
  - by apply Hbefore in H as [? ?].
  - by apply Hbefore in H as [? ?].
  - apply fetch_aws_costs_ok, Hbefore in H. by destruct H.
  - apply fetch_aws_costs_ok, Hbefore in H. by destruct H.
  - apply fetch_november_costs_ok in H as (? & ? & m & _ & _ & _ & _ & ->).
    simpl. eapply ranked_descending, with_activity_costs.
  - apply fetch_november_costs_ok in H as (? & ? & m & _ & _ & _ & _ & ->).
    simpl. eapply ranked_descending, with_activity_costs.
Qed.

Lemma top_services_descending_within_limit_witness :
  ∃ d, fetch_aws_costs Sample.world = Ok d
       ∧ descending (cost_of <$> top_services d)
       ∧ (length (top_services d) <= 10)%nat.
Proof.
  destruct (fetch_aws_costs Sample.world) as [d|e] eqn:E;
    [|vm_compute in E; discriminate].
  exists d. split; [reflexivity|].
  destruct top_services_descending_within_limit as (_ & _ & _ & Hlive & _).
  exact (Hlive Sample.world d E).
Defined.

(* ------------------------------------------------------------------ *)
(** ** The activity augmenter ([fetch_service_activity]) *)

Lemma inner_try_ok (r : result LookupResponse) :
  try_except (count_events r) (fun _ => Ok 0%nat) = Ok (activity_of r).
Proof. unfold activity_of. by destruct (count_events r). Qed.

Lemma all_zero_lookup (service_names : list string) (name : string) :
  all_zero service_names !! name
  = if decide (name ∈ service_names) then Some 0%nat else None.
Proof.
  unfold all_zero.
  assert (G : ∀ m : gmap string nat,
             foldl (fun m name => <[name := 0%nat]> m) m service_names !! name
             = if decide (name ∈ service_names) then Some 0%nat else m !! name).
  { induction service_names as [|n names IH]; intros m; cbn [foldl].
    - destruct (decide (name ∈ [])) as [Hin|_]; [|done].
      by apply not_elem_of_nil in Hin.
    - rewrite IH.
      destruct (decide (name ∈ names)) as [Hin|Hout];
        destruct (decide (name ∈ n :: names)) as [Hin'|Hout']; try done.
      + exfalso. apply Hout'. by right.
      + apply elem_of_cons in Hin' as [->|Hin']; [|done].
        by rewrite lookup_insert_eq.
      + rewrite lookup_insert_ne; [done|]. intros ->. apply Hout'. by left. }
  rewrite G. by destruct (decide _).
Qed.

(** The loop never raises; a name keeps the count of its own (last) query
    and nothing of the other queries. *)
Lemma activity_loop (client : CloudTrailClient) (service_names : list string)
    (activity : gmap string nat) (calls : nat) :
  ∃ activity',
    for_each (activity_step client) service_names (activity, calls)
    = Ok (activity', (calls + length service_names)%nat)
    ∧ (∀ name, name ∉ service_names → activity' !! name = activity !! name)
    ∧ (∀ i name, service_names !! i = Some name →
         name ∉ drop (S i) service_names →
         activity' !! name
         = Some (activity_of (lookup_events client (calls + i) (event_source_for name)))).
Proof.
  revert activity calls.
  induction service_names as [|n names IH]; intros activity calls.
  - exists activity. simpl. rewrite Nat.add_0_r.
    split; [done|]. split; [done|].
    intros i name H. by rewrite lookup_nil in H.
  - simpl. rewrite inner_try_ok. simpl.
    destruct (IH (<[n := activity_of (lookup_events client calls (event_source_for n))]>
                    activity) (S calls)) as (activity' & Hrun & Hout & Hin).
    exists activity'. rewrite Hrun. split; [f_equal; f_equal; lia|]. split.
    + intros name Hname. apply not_elem_of_cons in Hname as [Hne Hrest].
      rewrite Hout by done. by rewrite lookup_insert_ne.
    + intros [|i] name Hi Hlast; simpl in *.
      * injection Hi as ->. rewrite drop_0 in Hlast.
        rewrite Hout by done. rewrite lookup_insert_eq. by rewrite Nat.add_0_r.
      * rewrite (Hin i name Hi Hlast). do 3 f_equal. lia.
Qed.



(* ------------------------------------------------------------------ *)
(** ** Usage before credits ([fetch_aws_costs_before_credits]) *)

(** The first loop adds the usage lines to [usage_cost] and the credit
    lines to [credit_amount], in the order of the ledger. *)
Lemma record_type_loop (groups : list CEGroup) (usage credit usage' credit' : Q) :
  for_each record_type_step groups (usage, credit) = Ok (usage', credit') →
  let amounts record_type :=
    omap (fun g =>
            match Keys g, Amount g with
            | k :: _, Ok cost => if String.eqb k record_type then Some cost else None
            | _, _ => None
            end) groups in
  usage' = fold_left Qplus (amounts "Usage") usage
  ∧ credit' = fold_left Qplus (amounts "Credit") credit.
Proof.
  revert usage credit.
  induction groups as [|g groups IH]; intros usage credit H; simpl in *.
  - by injection H as <- <-.
  - unfold key_at in H. destruct (Keys g) as [|k keys]; simpl in H; [discriminate|].
    destruct (Amount g) as [cost|e]; simpl in H; [|discriminate].
    destruct (String.eqb k "Usage") eqn:Eu.
    + apply String.eqb_eq in Eu as ->. simpl. by apply IH in H.
    + destruct (String.eqb k "Credit") eqn:Ec; simpl; by apply IH in H.
Qed.

(** C1.  Whenever [fetch_aws_costs_before_credits] returns a snapshot, its
    [month_to_date] is the sum of the amounts of the ledger lines of
    record type "Usage", rounded to two decimals.  The lines of record
    type "Credit" do not enter into it. *)
Theorem month_to_date_is_gross_usage (w : World) (d : CostData) :
  fetch_aws_costs_before_credits w = Ok d →
  ∃ client response,
    client_ce w = Ok client
    ∧ get_cost_and_usage client (month_start w, today w) ["RECORD_TYPE"] = Ok response
    ∧ month_to_date d = round2 (py_sum (ledger_amounts "Usage" response)).
Proof.
  intros H.
  apply fetch_aws_costs_before_credits_ok in H
    as (client & response & usage & credit & ? & ? & ? & _ & Hc & Hr & Hu & _ & _ & _ & ->).
  exists client, response. split; [done|]. split; [done|]. simpl.
  rewrite for_each_group_flat in Hu. apply record_type_loop in Hu as [-> _].
  reflexivity.
Qed.

(** A credited month: usage of [10.00], credits of [-4.00]; the snapshot
    reports [10.00], not the net [6.00]. *)
Lemma month_to_date_is_gross_usage_witness :
  ∃ d, fetch_aws_costs_before_credits Sample.world = Ok d
       ∧ month_to_date d = (1000 # 100)%Q
       ∧ (py_sum (ledger_amounts "Usage" Sample.by_record_type)
          + py_sum (ledger_amounts "Credit" Sample.by_record_type) == 6)%Q.
Proof.
  destruct (fetch_aws_costs_before_credits Sample.world) as [d|e] eqn:E;
    [|vm_compute in E; discriminate].
  exists d. split; [reflexivity|].
  destruct (month_to_date_is_gross_usage Sample.world d E)
    as (client & response & Hc & Hr & ->).
  injection Hc as <-. injection Hr as <-.
  split; [vm_compute; reflexivity | vm_compute; reflexivity].
Defined.

(* ------------------------------------------------------------------ *)
(** ** The simulated source ([fetch_simulated_costs]) *)

Lemma round_half_even_between (x : Q) (lo hi : Z) :
  (inject_Z lo - (1 # 2) < x)%Q → (x < inject_Z hi + (1 # 2))%Q →
  lo <= round_half_even x <= hi.
Proof.
  intros Hlo Hhi. pose proof (round_half_even_spec x) as Hs. simpl in Hs.
  destruct x as [n d]. unfold Qlt in *. simpl in *.
  generalize dependent (round_half_even (n # d)). intros r Hs.
  split; nia.
Qed.

(** Rounding to two decimals moves a value by at most half a cent. *)
Lemma round2_close (x : Q) :
  (x - (1 # 200) <= round2 x ∧ round2 x <= x + (1 # 200))%Q.
Proof.
  unfold round2. pose proof (round_half_even_spec (x * 100)) as Hs. simpl in Hs.
  generalize dependent (round_half_even (x * 100)). intros r Hs.
  destruct x as [n d]. unfold Qle. simpl in *. split; nia.
Qed.

Lemma py_sum_from (xs : list Q) (a : Q) :
  (fold_left Qplus xs a == a + fold_right Qplus 0 xs)%Q.
Proof.
  revert a. induction xs as [|x xs IH]; intros a; simpl; [ring|].
  rewrite IH. ring.
Qed.

(** The value of a sum does not depend on the order of its terms. *)
Lemma py_sum_perm (xs ys : list Q) : xs ≡ₚ ys → (py_sum xs == py_sum ys)%Q.
Proof.
  intros H. unfold py_sum. rewrite !py_sum_from.
  apply Qplus_comp; [reflexivity|].
  induction H as [|x xs ys _ IH|x y xs|xs ys zs _ IH1 _ IH2]; simpl.
  - reflexivity.
  - by rewrite IH.
  - ring.
  - by rewrite IH1.
Qed.

(** The seven services are fewer than the limit: the ranking of the
    simulated source is the whole sorted table. *)
Lemma simulated_ranking_is_whole (rnd : Random) :
  get_top_services (randomize rnd service_costs_table) default_limit
  = sorted_desc snd Qlt_bool (randomize rnd service_costs_table).
Proof.
  unfold get_top_services. rewrite slice_to_nonneg by done.
  apply take_ge. rewrite sorted_desc_length. unfold randomize.
  rewrite length_imap. simpl. unfold default_limit. lia.
Qed.

Lemma randomize_names (rnd : Random) (table : list (string * Q)) :
  (randomize rnd table).*1 = table.*1.
Proof.
  unfold randomize. rewrite fmap_imap. unfold compose.
  rewrite <- (imap_const fst table). apply imap_ext. by intros i [service base] _.
Qed.

Lemma fetch_simulated_costs_names (rnd : Random) (clock : nat) :
  name_of <$> top_services (fetch_simulated_costs rnd clock)
  = (get_top_services (randomize rnd service_costs_table) default_limit).*1.
Proof.
  unfold fetch_simulated_costs. simpl.
  generalize (get_top_services (randomize rnd service_costs_table) default_limit).
  intros top. rewrite fmap_imap. unfold compose.
  rewrite <- (imap_const fst top). apply imap_ext.
  intros i [name cost] _. simpl.
  by destruct (default (0%nat, 50%nat) (activity_ranges !! name)).
Qed.

(** C10.  In every run of the simulated source [top_services] lists the
    seven services of the base table, each once, and [month_to_date] is
    the sum of the costs listed in [top_services], rounded to two
    decimals. *)
Theorem simulated_total_is_sum_of_breakdown (rnd : Random) (clock : nat) :
  let d := fetch_simulated_costs rnd clock in
  name_of <$> top_services d ≡ₚ service_costs_table.*1
  ∧ length (top_services d) = 7%nat
  ∧ month_to_date d = round2 (py_sum (cost_of <$> top_services d)).
Proof.
  intros d. unfold d. split_and!.
  - rewrite fetch_simulated_costs_names, simulated_ranking_is_whole.
    rewrite sorted_desc_perm. by rewrite randomize_names.
  - rewrite <- (length_fmap name_of).
    rewrite fetch_simulated_costs_names, simulated_ranking_is_whole.
    rewrite length_fmap, sorted_desc_length. unfold randomize.
    by rewrite length_imap.
  - rewrite fetch_simulated_costs_ranked, simulated_ranking_is_whole.
    unfold fetch_simulated_costs. cbn [month_to_date].
    apply round2_proper, py_sum_perm.
    by rewrite sorted_desc_perm.
Qed.

(** The number of cents of a randomized cost, from bounds on the
    unrounded product. *)
Ltac cents_between lo hi :=
  apply (round_half_even_between _ lo hi); unfold inject_Z; lra.

(** Row by row: the unrounded product lies within 10% of the base cost,
    and so does the rounded cost of every service other than AWS WAF. *)
Lemma simulated_row (rnd : Random) (i : nat) (service : string) (base : Q) :
  (∀ i, (9 # 10 <= uniform rnd i)%Q ∧ (uniform rnd i <= 11 # 10)%Q) →
  service_costs_table !! i = Some (service, base) →
  within_10_percent base (base * uniform rnd i)
  ∧ (service ≠ "AWS WAF" → within_10_percent base (round2 (base * uniform rnd i))).
Proof.
  intros Hv Hrow. destruct (Hv i) as [Hlo Hhi]. revert Hrow.
  destruct i as [|[|[|[|[|[|[|i]]]]]]]; simpl; intros [= <- <-];
    (split; [unfold within_10_percent; lra|]); intros Hname; try done;
    unfold round2, within_10_percent.
  - assert (Hn : 31 <= round_half_even ((34 # 100) * uniform rnd 1 * 100) <= 37)
      by cents_between 31 37.
    revert Hn. generalize (round_half_even ((34 # 100) * uniform rnd 1 * 100)).
    intros n Hn. unfold Qle. simpl. lia.
  - assert (Hn : 22 <= round_half_even ((24 # 100) * uniform rnd 2 * 100) <= 26)
      by cents_between 22 26.
    revert Hn. generalize (round_half_even ((24 # 100) * uniform rnd 2 * 100)).
    intros n Hn. unfold Qle. simpl. lia.
  - assert (Hn : 4 <= round_half_even ((4 # 100) * uniform rnd 3 * 100) <= 4)
      by cents_between 4 4.
    revert Hn. generalize (round_half_even ((4 # 100) * uniform rnd 3 * 100)).
    intros n Hn. unfold Qle. simpl. lia.
  - assert (Hn : 1 <= round_half_even ((1 # 100) * uniform rnd 4 * 100) <= 1)
      by cents_between 1 1.
    revert Hn. generalize (round_half_even ((1 # 100) * uniform rnd 4 * 100)).
    intros n Hn. unfold Qle. simpl. lia.
  - assert (Hn : 1 <= round_half_even ((1 # 100) * uniform rnd 5 * 100) <= 1)
      by cents_between 1 1.
    revert Hn. generalize (round_half_even ((1 # 100) * uniform rnd 5 * 100)).
    intros n Hn. unfold Qle. simpl. lia.
  - assert (Hn : 1 <= round_half_even ((1 # 100) * uniform rnd 6 * 100) <= 1)
      by cents_between 1 1.
    revert Hn. generalize (round_half_even ((1 # 100) * uniform rnd 6 * 100)).
    intros n Hn. unfold Qle. simpl. lia.
Qed.

(** The total of the seven rounded costs, in cents, lies between 193 and
    233; the base total is 213. *)
Lemma simulated_total_cents (rnd : Random) :
  (∀ i, (9 # 10 <= uniform rnd i)%Q ∧ (uniform rnd i <= 11 # 10)%Q) →
  ∃ n, 193 <= n <= 233
       ∧ round2 (py_sum (randomize rnd service_costs_table).*2) = (n # 100)%Q.
Proof.
  intros Hv.
  pose proof (Hv 0%nat) as [? ?]. pose proof (Hv 1%nat) as [? ?].
  pose proof (Hv 2%nat) as [? ?]. pose proof (Hv 3%nat) as [? ?].
  pose proof (Hv 4%nat) as [? ?]. pose proof (Hv 5%nat) as [? ?].
  pose proof (Hv 6%nat) as [? ?].
  assert (Hc0 : 133 <= round_half_even ((148 # 100) * uniform rnd 0 * 100) <= 163)
    by cents_between 133 163.
  assert (Hc1 : 31 <= round_half_even ((34 # 100) * uniform rnd 1 * 100) <= 37)
    by cents_between 31 37.
  assert (Hc2 : 22 <= round_half_even ((24 # 100) * uniform rnd 2 * 100) <= 26)
    by cents_between 22 26.
  assert (Hc3 : 4 <= round_half_even ((4 # 100) * uniform rnd 3 * 100) <= 4)
    by cents_between 4 4.
  assert (Hc4 : 1 <= round_half_even ((1 # 100) * uniform rnd 4 * 100) <= 1)
    by cents_between 1 1.
  assert (Hc5 : 1 <= round_half_even ((1 # 100) * uniform rnd 5 * 100) <= 1)
    by cents_between 1 1.
  assert (Hc6 : 1 <= round_half_even ((1 # 100) * uniform rnd 6 * 100) <= 1)
    by cents_between 1 1.
  unfold randomize, service_costs_table, py_sum. simpl. unfold round2 at 2 3 4 5 6 7 8.
  revert Hc0 Hc1 Hc2 Hc3 Hc4 Hc5 Hc6.
  generalize (round_half_even ((148 # 100) * uniform rnd 0 * 100)).
  generalize (round_half_even ((34 # 100) * uniform rnd 1 * 100)).
  generalize (round_half_even ((24 # 100) * uniform rnd 2 * 100)).
  generalize (round_half_even ((4 # 100) * uniform rnd 3 * 100)).
  generalize (round_half_even ((1 # 100) * uniform rnd 4 * 100)).
  generalize (round_half_even ((1 # 100) * uniform rnd 5 * 100)).
  generalize (round_half_even ((1 # 100) * uniform rnd 6 * 100)).
  intros n6 n5 n4 n3 n2 n1 n0 Hc0 Hc1 Hc2 Hc3 Hc4 Hc5 Hc6.
  exists (n0 + n1 + n2 + n3 + n4 + n5 + n6). split; [lia|].
  transitivity (round2 ((n0 + n1 + n2 + n3 + n4 + n5 + n6) # 100)).
  - apply round2_proper. unfold Qeq, Qplus. simpl. lia.
  - unfold round2. by rewrite round_half_even_cents.
Qed.

Lemma strictly_descending_NoDup (costs : list Q) : strictly_descending costs → NoDup costs.
Proof.
  induction 1 as [|x l Hs IH Hall]; constructor; [|done].
  intros Hx. apply (proj1 (Forall_forall _ _) Hall) in Hx.
  by apply Qlt_irrefl in Hx.
Qed.

(** Whatever factors in [0.9, 1.1] are drawn, the two last rows of the
    table both cost [0.01]: no run of the simulated source returns a
    strictly descending list. *)
Lemma fetch_simulated_costs_has_ties (rnd : Random) (clock : nat) :
  (∀ i, (9 # 10 <= uniform rnd i)%Q ∧ (uniform rnd i <= 11 # 10)%Q) →
  ¬ strictly_descending (cost_of <$> top_services (fetch_simulated_costs rnd clock)).
Proof.
  intros Hv Hs. apply strictly_descending_NoDup in Hs.
  rewrite fetch_simulated_costs_ranked, simulated_ranking_is_whole in Hs.
  rewrite sorted_desc_perm in Hs.
  destruct (Hv 5%nat) as [? ?]. destruct (Hv 6%nat) as [? ?].
  assert (H5 : round2 ((1 # 100) * uniform rnd 5) = (1 # 100)%Q).
  { unfold round2. f_equal.
    assert (1 <= round_half_even ((1 # 100) * uniform rnd 5 * 100) <= 1)
      by cents_between 1 1. lia. }
  assert (H6 : round2 ((1 # 100) * uniform rnd 6) = (1 # 100)%Q).
  { unfold round2. f_equal.
    assert (1 <= round_half_even ((1 # 100) * uniform rnd 6 * 100) <= 1)
      by cents_between 1 1. lia. }
  assert (E : (5 = 6)%nat); [|discriminate].
  apply (NoDup_lookup _ 5 6 (1 # 100)%Q Hs).
  - unfold randomize, service_costs_table. simpl. by rewrite H5.
  - unfold randomize, service_costs_table. simpl. by rewrite H6.
Qed.

Lemma top_services_simulated_row (rnd : Random) (clock : nat) (entry : string * Q * nat) :
  entry ∈ top_services (fetch_simulated_costs rnd clock) →
  ∃ i base, service_costs_table !! i = Some (name_of entry, base)
            ∧ cost_of entry = round2 (base * uniform rnd i).
Proof.
  unfold fetch_simulated_costs. cbn [top_services]. intros H.
  apply elem_of_lookup_imap in H as (j & [name cost] & -> & Hj).
  assert (Hin : (name, cost) ∈ randomize rnd service_costs_table).
  { apply list_elem_of_lookup_2 in Hj.
    rewrite simulated_ranking_is_whole in Hj. by rewrite sorted_desc_perm in Hj. }
  unfold randomize in Hin.
  apply elem_of_lookup_imap in Hin as (i & [service base] & Heq & Hi).
  injection Heq as -> ->. exists i, base.
  destruct (default (0%nat, 50%nat) (activity_ranges !! service)). done.
Qed.

(** With every factor equal to [0.901] the cost of AWS WAF is
    [round(1.48 * 0.901, 2) = round(1.33348, 2) = 1.33], which is below
    [0.9 * 1.48 = 1.332]. *)
Lemma simulated_waf_cost_outside_10_percent :
  let rnd := Sample.constant_random (901 # 1000) in
  (∀ i, (9 # 10 <= uniform rnd i)%Q ∧ (uniform rnd i <= 11 # 10)%Q)
  ∧ service_costs_table !! 0%nat = Some ("AWS WAF", (148 # 100)%Q)
  ∧ top_services (fetch_simulated_costs rnd 0) !! 0%nat
    = Some ("AWS WAF", (133 # 100)%Q, 50%nat)
  ∧ ¬ within_10_percent (148 # 100) (133 # 100).
Proof.
  intros rnd. split_and!.
  - intros i. simpl. split; unfold Qle; simpl; lia.
  - reflexivity.
  - vm_compute. reflexivity.
  - unfold within_10_percent, Qle. simpl. lia.
Qed.

(** C6, with the rounding accounted for.  When every factor drawn lies in
    [0.9, 1.1], the month-to-date total lies within 10% of the base total,
    and the cost of each listed service is the rounding to two decimals of
    a product that lies within 10% of the base cost of that service: it is
    within half a cent of that product, and within 10% of the base cost
    itself for every service other than AWS WAF. *)
Theorem simulated_costs_near_base (rnd : Random) (clock : nat) :
  (∀ i, (9 # 10 <= uniform rnd i)%Q ∧ (uniform rnd i <= 11 # 10)%Q) →
  let d := fetch_simulated_costs rnd clock in
  within_10_percent base_total (month_to_date d)
  ∧ ∀ entry, entry ∈ top_services d →
      ∃ i base,
        service_costs_table !! i = Some (name_of entry, base)
        ∧ cost_of entry = round2 (base * uniform rnd i)
        ∧ within_10_percent base (base * uniform rnd i)
        ∧ (base * uniform rnd i - (1 # 200) <= cost_of entry)%Q
        ∧ (cost_of entry <= base * uniform rnd i + (1 # 200))%Q
        ∧ (name_of entry ≠ "AWS WAF" → within_10_percent base (cost_of entry)).
Proof.
  intros Hv d. split.
  - unfold d, fetch_simulated_costs. cbn [month_to_date].
    destruct (simulated_total_cents rnd Hv) as (n & Hn & ->).
    unfold within_10_percent, base_total, Qle. simpl. lia.
  - intros entry Hentry.
    apply top_services_simulated_row in Hentry as (i & base & Hrow & Hcost).
    exists i, base. rewrite Hcost.
    destruct (simulated_row rnd i (name_of entry) base Hv Hrow) as [Hprod Hround].
    destruct (round2_close (base * uniform rnd i)) as [Hl Hu].
    split_and!; done.
Qed.

Lemma simulated_costs_near_base_witness :
  let rnd := Sample.constant_random (901 # 1000) in
  (∀ i, (9 # 10 <= uniform rnd i)%Q ∧ (uniform rnd i <= 11 # 10)%Q)
  ∧ within_10_percent base_total (month_to_date (fetch_simulated_costs rnd 0))
  ∧ month_to_date (fetch_simulated_costs rnd 0) = (193 # 100)%Q.
Proof.
  intros rnd.
  assert (Hv : ∀ i, (9 # 10 <= uniform rnd i)%Q ∧ (uniform rnd i <= 11 # 10)%Q).
  { intros i. simpl. split; unfold Qle; simpl; lia. }
  split; [exact Hv|]. split.
  - exact (proj1 (simulated_costs_near_base rnd 0 Hv)).
  - vm_compute. reflexivity.
Defined.

(* ------------------------------------------------------------------ *)
(** ** The negligible threshold *)

Lemma dict_add_keys (m : list (string * Q)) (name : string) (cost : Q) :
  (dict_add m name cost).*1 = if decide (name ∈ m.*1) then m.*1 else m.*1 ++ [name].
Proof.
  induction m as [|[k v] m IH]; cbn [dict_add].
  - destruct (decide (name ∈ [].*1)) as [Hin|_]; [|done]. by apply not_elem_of_nil in Hin.
  - destruct (String.eqb k name) eqn:E; rewrite !fmap_cons; cbn [fst].
    + apply String.eqb_eq in E as ->.
      by rewrite decide_True by left.
    + apply String.eqb_neq in E. rewrite IH.
      destruct (decide (name ∈ m.*1)) as [Hin|Hout].
      * by rewrite decide_True by (by right).
      * rewrite decide_False; [done|].
        intros Hx. apply elem_of_cons in Hx as [->|Hx]; [by apply E | done].
Qed.

Lemma dict_add_NoDup (m : list (string * Q)) (name : string) (cost : Q) :
  NoDup m.*1 → NoDup (dict_add m name cost).*1.
Proof.
  intros H. rewrite dict_add_keys. destruct (decide (name ∈ m.*1)) as [Hin|Hout]; [done|].
  apply NoDup_app. split_and!; [done| |apply NoDup_singleton].
  intros x Hx Hx'. apply list_elem_of_singleton in Hx' as ->. done.
Qed.

Lemma for_each_NoDup (step : list (string * Q) → CEGroup → result (list (string * Q)))
    (groups : list CEGroup) (m m' : list (string * Q)) :
  (∀ m g m', step m g = Ok m' → NoDup m.*1 → NoDup m'.*1) →
  for_each step groups m = Ok m' → NoDup m.*1 → NoDup m'.*1.
Proof.
  intros Hstep. revert m. induction groups as [|g groups IH]; intros m H Hm; simpl in H.
  - by injection H as <-.
  - apply bind_ok in H as (m1 & H1 & H). eapply IH; [exact H|]. by eapply Hstep.
Qed.

Lemma by_service_step_NoDup (m : list (string * Q)) (g : CEGroup) (m' : list (string * Q)) :
  by_service_step m g = Ok m' → NoDup m.*1 → NoDup m'.*1.
Proof.
  unfold by_service_step. intros H Hm.
  apply bind_ok in H as (name & _ & H). apply bind_ok in H as (cost & _ & H).
  injection H as <-. by apply dict_add_NoDup.
Qed.

Lemma usage_by_service_step_NoDup (m : list (string * Q)) (g : CEGroup) (m' : list (string * Q)) :
  usage_by_service_step m g = Ok m' → NoDup m.*1 → NoDup m'.*1.
Proof.
  unfold usage_by_service_step. intros H Hm.
  destruct (2 <=? length (Keys g))%nat; [|by injection H as <-].
  apply bind_ok in H as (name & _ & H). apply bind_ok in H as (rt & _ & H).
  apply bind_ok in H as (cost & _ & H).
  destruct (_ && _); injection H as <-; [by apply dict_add_NoDup | done].
Qed.

Lemma NoDup_keys_unique (m : list (string * Q)) (name : string) (c1 c2 : Q) :
  NoDup m.*1 → (name, c1) ∈ m → (name, c2) ∈ m → c1 = c2.
Proof.
  induction m as [|[k v] m IH]; simpl; intros Hm H1 H2.
  - by apply not_elem_of_nil in H1.
  - apply NoDup_cons in Hm as [Hk Hm].
    apply elem_of_cons in H1 as [E1|H1]; apply elem_of_cons in H2 as [E2|H2].
    + congruence.
    + injection E1 as -> ->. exfalso. apply Hk.
      by apply (list_elem_of_fmap_2 fst) in H2.
    + injection E2 as -> ->. exfalso. apply Hk.
      by apply (list_elem_of_fmap_2 fst) in H1.
    + by apply IH.
Qed.

Lemma elem_of_drop_negligible (items : list (string * Q)) (name : string) (c : Q) :
  (name, c) ∈ drop_negligible items
  ↔ ∃ cost, (name, cost) ∈ items ∧ (negligible < cost)%Q ∧ c = round2 cost.
Proof.
  induction items as [|[k v] items IH]; simpl.
  - split; [intros H; by apply not_elem_of_nil in H|].
    intros (cost & H & _). by apply not_elem_of_nil in H.
  - destruct (Qlt_bool negligible v) eqn:E.
    + apply Qlt_bool_true in E. rewrite elem_of_cons, IH. split.
      * intros [[= -> ->]|(cost & H & Hc)].
        -- exists v. split_and!; [by left | done | done].
        -- exists cost. split; [by right | done].
      * intros (cost & H & Hlt & ->). apply elem_of_cons in H as [[= -> ->]|H].
        -- by left.
        -- right. by exists cost.
    + apply Qlt_bool_false in E. rewrite IH. split.
      * intros (cost & H & Hc). exists cost. split; [by right | done].
      * intros (cost & H & Hlt & ->). apply elem_of_cons in H as [[= -> ->]|H].
        -- exfalso. exact (Qlt_not_le _ _ Hlt E).
        -- by exists cost.
Qed.

Lemma drop_negligible_leaves_out (m : list (string * Q)) :
  NoDup m.*1 → leaves_out_negligible m (drop_negligible m).
Proof.
  intros Hm. split.
  - intros name cost Hin Hlt Hname.
    apply list_elem_of_fmap in Hname as ([name' c] & -> & Hc). simpl in *.
    apply elem_of_drop_negligible in Hc as (cost' & Hin' & Hlt' & _).
    rewrite (NoDup_keys_unique m name' cost cost' Hm Hin Hin') in Hlt.
    exact (Qlt_irrefl _ (Qlt_trans _ _ _ Hlt Hlt')).
  - intros name c. apply elem_of_drop_negligible.
Qed.

Lemma november_filter_spec (items : list (string * Q)) (acc : list (string * Q)) (total : Q) :
  (november_filter items (acc, total)).1 = acc ++ drop_negligible items.
Proof.
  revert acc total. induction items as [|[k v] items IH]; intros acc total; simpl.
  - by rewrite app_nil_r.
  - destruct (Qlt_bool negligible v); rewrite IH; [|done].
    by rewrite <- app_assoc.
Qed.

(** The per-service loop of the billing-metric source adds, in the order of
    the checklist, the entry of each service that has one. *)
Lemma service_metric_step_entry (cloudwatch : CloudWatchClient)
    (service_costs : list (string * Q)) (service : string) :
  service_metric_step cloudwatch service_costs service
  = Ok (service_costs ++ option_list (metric_entry cloudwatch service)).
Proof.
  unfold service_metric_step, service_metric_query, metric_entry.
  destruct (get_metric_statistics _ _) as [response|e]; simpl;
    [|by rewrite app_nil_r].
  destruct (latest_maximum response) as [[cost|]|e]; simpl;
    try by rewrite app_nil_r.
  destruct (Qlt_bool negligible cost); simpl; [done | by rewrite app_nil_r].
Qed.

Lemma service_metric_loop_from (cloudwatch : CloudWatchClient)
    (services : list string) (service_costs : list (string * Q)) :
  for_each (service_metric_step cloudwatch) services service_costs
  = Ok (service_costs ++ omap (metric_entry cloudwatch) services).
Proof.
  revert service_costs. induction services as [|s services IH]; intros sc; simpl.
  - by rewrite app_nil_r.
  - rewrite service_metric_step_entry. simpl. rewrite IH. rewrite <- app_assoc.
    by destruct (metric_entry cloudwatch s).
Qed.

Lemma service_metric_loop_entries (cloudwatch : CloudWatchClient) (services : list string) :
  service_metric_loop cloudwatch services = Ok (omap (metric_entry cloudwatch) services).
Proof. unfold service_metric_loop. by rewrite service_metric_loop_from. Qed.

Lemma fetch_cost_explorer_services_cases (w : World) (start_date end_date : option string) :
  ∃ service_cost_map,
    NoDup service_cost_map.*1
    ∧ fetch_cost_explorer_services w start_date end_date
      = Ok (drop_negligible service_cost_map)
    ∧ (service_cost_map = []
       ∨ ∃ client period response,
           boto3_installed w = true
           ∧ client_ce w = Ok client
           ∧ get_cost_and_usage client period ["SERVICE"] = Ok response
           ∧ for_each_group by_service_step response [] = Ok service_cost_map).
Proof.
  unfold fetch_cost_explorer_services, import_boto3.
  assert (Hnil : ∃ m : list (string * Q),
            NoDup m.*1 ∧ Ok [] = Ok (drop_negligible m)
            ∧ (m = [] ∨ ∃ client period response,
                 boto3_installed w = true ∧ client_ce w = Ok client
                 ∧ get_cost_and_usage client period ["SERVICE"] = Ok response
                 ∧ for_each_group by_service_step response [] = Ok m)).
  { exists []. split_and!; [apply NoDup_nil_2 | done | by left]. }
  destruct (boto3_installed w) eqn:Hb; simpl; [|exact Hnil].
  destruct (client_ce w) as [client|e] eqn:Hc; simpl; [|exact Hnil].
  set (period := if falsy start_date || falsy end_date then _ else _).
  destruct (get_cost_and_usage client period ["SERVICE"]) as [response|e] eqn:Hr;
    simpl; [|exact Hnil].
  destruct (for_each_group by_service_step response []) as [m|e] eqn:Hm;
    simpl; [|exact Hnil].
  exists m. split_and!; [|done|].
  - rewrite for_each_group_flat in Hm.
    eapply for_each_NoDup; [apply by_service_step_NoDup | exact Hm | apply NoDup_nil_2].
  - right. by exists client, period, response.
Qed.

Lemma simulated_costs_not_negligible (rnd : Random) (entry : string * Q) :
  (∀ i, (9 # 10 <= uniform rnd i)%Q ∧ (uniform rnd i <= 11 # 10)%Q) →
  entry ∈ randomize rnd service_costs_table → (negligible < snd entry)%Q.
Proof.
  intros Hv Hin. unfold randomize in Hin.
  apply elem_of_lookup_imap in Hin as (i & [service base] & -> & Hi). simpl.
  destruct (round2_close (base * uniform rnd i)) as [Hl _].
  destruct (Hv i) as [Hlo Hhi]. unfold negligible.
  assert (Hbase : (1 # 100 <= base)%Q).
  { revert Hi. destruct i as [|[|[|[|[|[|[|i]]]]]]]; simpl; intros [= <- <-];
      unfold Qle; simpl; lia. }
  assert (Hprod : ((9 # 10) * (1 # 100) <= base * uniform rnd i)%Q).
  { rewrite (Qmult_comm base). apply Qmult_le_compat_nonneg; split; lra. }
  lra.
Qed.

(** C7.  In every source the breakdown handed to [get_top_services] leaves
    out the negligible.  The usage-ledger breakdown
    ([fetch_cost_explorer_services]) is made from the per-service map of
    aggregated costs and holds no service whose aggregated cost is below
    [0.001]; so are the breakdowns that [fetch_aws_costs_before_credits]
    and [fetch_november_costs] rank.  Every entry of the per-service loop
    of the billing-metric source comes from a latest value above [0.001],
    and every cost of the simulated source is above [0.001]. *)
Theorem negligible_costs_never_ranked :
  (∀ w start_date end_date,
     ∃ service_cost_map,
       fetch_cost_explorer_services w start_date end_date
       = Ok (drop_negligible service_cost_map)
       ∧ leaves_out_negligible service_cost_map (drop_negligible service_cost_map)
       ∧ (service_cost_map = []
          ∨ ∃ client period response,
              client_ce w = Ok client
              ∧ get_cost_and_usage client period ["SERVICE"] = Ok response
              ∧ for_each_group by_service_step response [] = Ok service_cost_map))
  ∧ (∀ w d, fetch_aws_costs_before_credits w = Ok d →
       ∃ client response service_cost_map activity_data,
         client_ce w = Ok client
         ∧ get_cost_and_usage client (month_start w, today w) ["SERVICE"; "RECORD_TYPE"]
           = Ok response
         ∧ for_each_group usage_by_service_step response [] = Ok service_cost_map
         ∧ top_services d
           = with_activity activity_data
               (get_top_services (drop_negligible service_cost_map) default_limit)
         ∧ leaves_out_negligible service_cost_map (drop_negligible service_cost_map))
  ∧ (∀ w d, fetch_november_costs w = Ok d →
       ∃ client response service_cost_map activity_data,
         client_ce w = Ok client
         ∧ get_cost_and_usage client ("2025-11-01", "2025-12-01") ["SERVICE"] = Ok response
         ∧ for_each_group by_service_step response [] = Ok service_cost_map
         ∧ top_services d
           = with_activity activity_data
               (get_top_services (drop_negligible service_cost_map) default_limit)
         ∧ leaves_out_negligible service_cost_map (drop_negligible service_cost_map))
  ∧ (∀ cloudwatch services breakdown name c,
       service_metric_loop cloudwatch services = Ok breakdown →
       (name, c) ∈ breakdown →
       ∃ service response cost,
         service ∈ services
         ∧ get_metric_statistics cloudwatch
             [("Currency", "USD"); ("ServiceName", service)] = Ok response
         ∧ latest_maximum response = Ok (Some cost)
         ∧ (negligible < cost)%Q
         ∧ name = readable_name service ∧ c = round2 cost)
  ∧ (∀ rnd entry,
       (∀ i, (9 # 10 <= uniform rnd i)%Q ∧ (uniform rnd i <= 11 # 10)%Q) →
       entry ∈ randomize rnd service_costs_table → (negligible < snd entry)%Q).
Proof.
  split_and!.
  - intros w start_date end_date.
    destruct (fetch_cost_explorer_services_cases w start_date end_date)
      as (m & Hm & Hfetch & Hfrom).
    exists m. split_and!; [done | by apply drop_negligible_leaves_out |].
    destruct Hfrom as [->|(client & period & response & _ & ? & ? & ?)]; [by left|].
    right. by exists client, period, response.
  - intros w d H.
    apply fetch_aws_costs_before_credits_ok in H
      as (client & ? & ? & ? & response & m & act & _ & Hc & _ & _ & Hr & Hm & _ & ->).
    exists client, response, m, act. split_and!; try done.
    apply drop_negligible_leaves_out. rewrite for_each_group_flat in Hm.
    eapply for_each_NoDup;
      [apply usage_by_service_step_NoDup | exact Hm | apply NoDup_nil_2].
  - intros w d H.
    apply fetch_november_costs_ok in H as (client & response & m & _ & Hc & Hr & Hm & ->).
    rewrite november_filter_spec. simpl.
    exists client, response, m,
      (all_zero (get_top_services (drop_negligible m) default_limit).*1).
    split_and!; try done.
    apply drop_negligible_leaves_out. rewrite for_each_group_flat in Hm.
    eapply for_each_NoDup; [apply by_service_step_NoDup | exact Hm | apply NoDup_nil_2].
  - intros cloudwatch services breakdown name c Hloop Hin.
    rewrite service_metric_loop_entries in Hloop. injection Hloop as <-.
    apply list_elem_of_omap in Hin as (service & Hs & Hentry).
    unfold metric_entry in Hentry.
    destruct (get_metric_statistics _ _) as [response|e] eqn:Hq; [|done].
    destruct (latest_maximum response) as [[cost|]|e] eqn:Hl; try done.
    destruct (Qlt_bool negligible cost) eqn:Hlt; [|done].
    injection Hentry as <- <-. apply Qlt_bool_true in Hlt.
    by exists service, response, cost.
  - intros rnd entry Hv Hin. exact (simulated_costs_not_negligible rnd entry Hv Hin).
Qed.

(** In the sample month AWS Glue has an aggregated usage of [0.0004]: it is
    in the per-service map and not in the breakdown that is ranked. *)
Lemma negligible_costs_never_ranked_witness :
  ∃ d service_cost_map,
    fetch_aws_costs_before_credits Sample.world = Ok d
    ∧ for_each_group usage_by_service_step Sample.by_service_and_record_type []
      = Ok service_cost_map
    ∧ ("AWS Glue", (0 + (4 # 10000))%Q) ∈ service_cost_map
    ∧ "AWS Glue" ∉ (drop_negligible service_cost_map).*1.
Proof.
  destruct (fetch_aws_costs_before_credits Sample.world) as [d|e] eqn:E;
    [|vm_compute in E; discriminate].
  destruct negligible_costs_never_ranked as (_ & Hbefore & _).
  destruct (Hbefore Sample.world d E)
    as (client & response & m & act & Hc & Hr & Hm & _ & Hleaves & _).
  injection Hc as <-. injection Hr as <-.
  exists d, m. split; [reflexivity|]. split; [exact Hm|].
  assert (Hglue : ("AWS Glue", (0 + (4 # 10000))%Q) ∈ m).
  { vm_compute in Hm. injection Hm as <-. do 2 right. by left. }
  split; [exact Hglue|].
  apply (Hleaves "AWS Glue" (0 + (4 # 10000))%Q Hglue).
  unfold negligible, Qlt. simpl. lia.
Defined.

(* ------------------------------------------------------------------ *)
(** ** The billing-metric source ([fetch_cloudwatch_billing_metrics]) *)

Lemma fetch_service_activity_returns (w : World) (service_names : list string) :
  ∃ activity, fetch_service_activity w service_names = Ok activity.
Proof.
  unfold fetch_service_activity.
  destruct (import_boto3 w); simpl; [|destruct (exn_is_import_error e); eauto].
  destruct (client_cloudtrail w) as [client|e]; simpl;
    [|destruct (exn_is_import_error e); eauto].
  destruct (activity_loop client service_names ∅ 0) as (activity & -> & _).
  simpl. eauto.
Qed.

(** The latest point wins: the value taken from a response with data is the
    maximum statistic of a point whose timestamp no other point exceeds. *)
Lemma latest_maximum_spec (response : MetricResponse) :
  (Datapoints response = [] ∧ latest_maximum response = Ok None)
  ∨ ∃ p, p ∈ Datapoints response
         ∧ (∀ q, q ∈ Datapoints response → Timestamp q <= Timestamp p)
         ∧ latest_maximum response = Ok (Some (Maximum p)).
Proof.
  unfold latest_maximum. destruct (Datapoints response) as [|p0 points] eqn:E; [by left|].
  right. rewrite <- E.
  pose proof (sorted_desc_perm Timestamp Z.ltb (Datapoints response)) as Hperm.
  assert (Hs : StronglySorted (fun a b => Timestamp b <= Timestamp a)
                 (sorted_desc Timestamp Z.ltb (Datapoints response))).
  { apply sorted_desc_sorted.
    - intros x y H. apply Z.ltb_ge in H. done.
    - intros x y H. apply Z.ltb_lt in H. lia.
    - intros x y z ? ?. lia. }
  destruct (sorted_desc Timestamp Z.ltb (Datapoints response)) as [|p sorted_points].
  - apply Permutation_nil_l in Hperm. congruence.
  - exists p. split_and!; [|intros q Hq|done].
    + rewrite <- Hperm. by left.
    + rewrite <- Hperm in Hq. apply StronglySorted_cons in Hs as [Hall _].
      apply elem_of_cons in Hq as [->|Hq]; [lia|].
      by apply (proj1 (Forall_forall _ _) Hall).
Qed.

Lemma latest_maximum_returns (response : MetricResponse) :
  ∃ latest, latest_maximum response = Ok latest.
Proof.
  destruct (latest_maximum_spec response) as [[_ ->]|(p & _ & _ & ->)]; eauto.
Qed.

Lemma readable_names_distinct : NoDup (readable_name <$> services_to_check).
Proof. apply (bool_decide_unpack _). vm_compute. done. Qed.

Lemma NoDup_fmap_unique {A B : Type} (f : A → B) (l : list A) (x y : A) :
  NoDup (f <$> l) → x ∈ l → y ∈ l → f x = f y → x = y.
Proof.
  induction l as [|a l IH]; csimpl; intros Hn Hx Hy Hf.
  - by apply not_elem_of_nil in Hx.
  - apply NoDup_cons in Hn as [Ha Hn].
    apply elem_of_cons in Hx as [->|Hx]; apply elem_of_cons in Hy as [->|Hy].
    + done.
    + exfalso. apply Ha. rewrite Hf. by apply list_elem_of_fmap_2.
    + exfalso. apply Ha. rewrite <- Hf. by apply list_elem_of_fmap_2.
    + by apply IH.
Qed.

(** A service whose query fails contributes nothing: the loop gives what
    it would give without that service on the list. *)
Lemma service_metric_loop_skips_failed (cloudwatch : CloudWatchClient)
    (services : list string) (service : string) (e : exn) :
  get_metric_statistics cloudwatch [("Currency", "USD"); ("ServiceName", service)]
  = Raise e →
  service_metric_loop cloudwatch services
  = service_metric_loop cloudwatch (filter (fun s => s ≠ service) services).
Proof.
  intros Hfail. rewrite !service_metric_loop_entries. f_equal.
  induction services as [|s services IH]; [done|].
  rewrite filter_cons. destruct (decide (s ≠ service)) as [Hne|Heq]; csimpl.
  - by rewrite IH.
  - apply dec_stable in Heq as ->. unfold metric_entry at 1. by rewrite Hfail.
Qed.

Lemma service_metric_loop_omits (cloudwatch : CloudWatchClient) (services : list string)
    (service : string) (e : exn) (breakdown : list (string * Q)) :
  NoDup (readable_name <$> services) →
  service ∈ services →
  get_metric_statistics cloudwatch [("Currency", "USD"); ("ServiceName", service)]
  = Raise e →
  service_metric_loop cloudwatch services = Ok breakdown →
  readable_name service ∉ breakdown.*1.
Proof.
  intros Hdistinct Hs Hfail Hloop Hin.
  rewrite service_metric_loop_entries in Hloop. injection Hloop as <-.
  apply list_elem_of_fmap in Hin as ([name c] & Hname & Hin). cbn [fst] in Hname.
  apply list_elem_of_omap in Hin as (s & Hs' & Hentry).
  unfold metric_entry in Hentry.
  destruct (get_metric_statistics cloudwatch [_; ("ServiceName", s)])
    as [response|e'] eqn:Hq; [|discriminate].
  destruct (latest_maximum response) as [[cost|]|?]; try discriminate.
  destruct (Qlt_bool negligible cost); [|discriminate].
  injection Hentry as Hn Hc.
  assert (Heq : s = service).
  { apply (NoDup_fmap_unique readable_name services s service Hdistinct Hs' Hs).
    congruence. }
  rewrite Heq, Hfail in Hq. discriminate.
Qed.

Lemma service_metric_loop_omits_failed (cloudwatch : CloudWatchClient)
    (service : string) (e : exn) (breakdown : list (string * Q)) :
  service ∈ services_to_check →
  get_metric_statistics cloudwatch [("Currency", "USD"); ("ServiceName", service)]
  = Raise e →
  service_metric_loop cloudwatch services_to_check = Ok breakdown →
  readable_name service ∉ breakdown.*1.
Proof.
  exact (service_metric_loop_omits cloudwatch services_to_check service e breakdown
           readable_names_distinct).
Qed.

(** The claim fails twice in one run.  The query for S3 raises, the loop
    gives no entry, and the usage-ledger fallback lists "Amazon S3" all the
    same: the failed service is in the breakdown of the snapshot.  And the
    total reported is the rounding of the step-1 value, not the value: with
    a latest aggregate of [12.346] the snapshot reports [12.35]. *)
Lemma billing_metrics_fallback_relists_and_rounds :
  ∃ cloudwatch response e d,
    client_cloudwatch Sample.world_total_only = Ok cloudwatch
    ∧ get_metric_statistics cloudwatch [("Currency", "USD")] = Ok response
    ∧ latest_maximum response = Ok (Some (12346 # 1000)%Q)
    ∧ "AmazonS3" ∈ services_to_check
    ∧ get_metric_statistics cloudwatch
        [("Currency", "USD"); ("ServiceName", "AmazonS3")] = Raise e
    ∧ readable_name "AmazonS3" = "Amazon S3"
    ∧ service_metric_loop cloudwatch services_to_check = Ok []
    ∧ fetch_cloudwatch_billing_metrics Sample.world_total_only = Ok d
    ∧ "Amazon S3" ∈ name_of <$> top_services d
    ∧ month_to_date d = (1235 # 100)%Q
    ∧ ¬ (month_to_date d == 12346 # 1000)%Q.
Proof.
  exists Sample.cloudwatch_total_only,
    (MkMetricResponse [MkDatapoint 1 12; MkDatapoint 3 (12346 # 1000)%Q]),
    Sample.exn_throttled.
  destruct (fetch_cloudwatch_billing_metrics Sample.world_total_only) as [d|e] eqn:E;
    [|vm_compute in E; discriminate].
  exists d. vm_compute in E. injection E as <-.
  split_and!; try reflexivity.
  - unfold services_to_check. right. by left.
  - cbn [top_services]. csimpl. by left.
  - vm_compute. discriminate.
Qed.

(** C8, with the fallback and the rounding of the total stated.  Once the
    aggregate query of step 1 has answered, the source returns a snapshot.
    A service of the checklist whose own query fails has no entry in the
    breakdown of the per-service loop, which is what it would be without
    that service on the list; so the service is not in the snapshot
    either, unless the fallback is used.  [month_to_date] is the step-1
    value, taken from the latest data point, rounded to two decimals,
    whether or not the fallback is used; and when the loop gives no entry
    while that value is positive, the services ranked are those of
    [fetch_cost_explorer_services]. *)
Theorem billing_metrics_failures_and_fallback
    (w : World) (cloudwatch : CloudWatchClient) (response : MetricResponse) :
  boto3_installed w = true →
  client_cloudwatch w = Ok cloudwatch →
  get_metric_statistics cloudwatch [("Currency", "USD")] = Ok response →
  ∃ latest loop_costs d,
    latest_maximum response = Ok latest
    ∧ service_metric_loop cloudwatch services_to_check = Ok loop_costs
    ∧ (∀ service e,
         get_metric_statistics cloudwatch
           [("Currency", "USD"); ("ServiceName", service)] = Raise e →
         (service ∈ services_to_check → readable_name service ∉ loop_costs.*1)
         ∧ service_metric_loop cloudwatch services_to_check
           = service_metric_loop cloudwatch
               (filter (fun s => s ≠ service) services_to_check))
    ∧ fetch_cloudwatch_billing_metrics w = Ok d
    ∧ month_to_date d = round2 (default 0%Q latest)
    ∧ (loop_costs = [] → (0 < default 0%Q latest)%Q →
       ∃ fallback activity_data,
         fetch_cost_explorer_services w None None = Ok fallback
         ∧ top_services d
           = with_activity activity_data (get_top_services fallback default_limit))
    ∧ (loop_costs ≠ [] ∨ (default 0%Q latest <= 0)%Q →
       (∃ activity_data,
          top_services d
          = with_activity activity_data (get_top_services loop_costs default_limit))
       ∧ ∀ service e,
           service ∈ services_to_check →
           get_metric_statistics cloudwatch
             [("Currency", "USD"); ("ServiceName", service)] = Raise e →
           readable_name service ∉ name_of <$> top_services d).
Proof.
  intros Hboto Hclient Hresponse.
  destruct (latest_maximum_returns response) as [latest Hlatest].
  pose proof (service_metric_loop_entries cloudwatch services_to_check) as Hloop.
  pose proof (service_metric_loop_omits_failed cloudwatch) as Homits.
  pose proof (fun service e => service_metric_loop_skips_failed cloudwatch
                                 services_to_check service e) as Hskips.
  revert Hloop Homits Hskips.
  generalize (omap (metric_entry cloudwatch) services_to_check).
  intros loop_costs Hloop Homits Hskips.
  destruct (fetch_cost_explorer_services_cases w None None) as (m & _ & Hfallback & _).
  set (service_costs :=
         if is_empty loop_costs && Qlt_bool 0 (default 0%Q latest)
         then drop_negligible m else loop_costs).
  destruct (fetch_service_activity_returns w
              (get_top_services service_costs default_limit).*1) as [act Hact].
  exists latest, loop_costs,
    (MkCostData (round2 (default 0%Q latest))
       (with_activity act (get_top_services service_costs default_limit)) (now w)).
  assert (Hdirect : loop_costs ≠ [] ∨ (default 0%Q latest <= 0)%Q →
                    service_costs = loop_costs).
  { intros Hother. unfold service_costs. destruct Hother as [Hne|Hle].
    - by destruct loop_costs.
    - apply Qlt_bool_false in Hle. rewrite Hle. by rewrite andb_false_r. }
  split_and!.
  - done.
  - done.
  - intros service e Hfail. split.
    + intros Hs. exact (Homits service e loop_costs Hs Hfail Hloop).
    + exact (Hskips service e Hfail).
  - unfold fetch_cloudwatch_billing_metrics, import_boto3.
    rewrite Hboto, Hclient. simpl. rewrite Hresponse. simpl.
    rewrite Hlatest. simpl. rewrite Hloop. simpl.
    unfold service_costs in Hact |- *.
    destruct (is_empty loop_costs && Qlt_bool 0 (default 0%Q latest)).
    + rewrite Hfallback. simpl. rewrite Hact. done.
    + simpl. rewrite Hact. done.
  - done.
  - intros Hempty Hpos. exists (drop_negligible m), act. split; [done|].
    simpl. unfold service_costs. rewrite Hempty. simpl.
    apply Qlt_bool_true in Hpos. by rewrite Hpos.
  - intros Hother. cbn [top_services]. rewrite (Hdirect Hother). split.
    + by exists act.
    + intros service e Hs Hfail Hin. rewrite with_activity_names in Hin.
      apply (Homits service e loop_costs Hs Hfail Hloop).
      apply list_elem_of_fmap in Hin as (x & -> & Hx).
      apply get_top_services_subset in Hx. by apply list_elem_of_fmap_2.
Qed.

(** Two samples in which the S3 query is throttled.  In the first the
    loop finds EC2, the fallback is not used, and S3 is not in the
    snapshot.  In the second the loop finds nothing, the services come
    from the usage ledger and the total from step 1. *)
Lemma billing_metrics_failures_and_fallback_witness :
  (∃ d, fetch_cloudwatch_billing_metrics Sample.world = Ok d
        ∧ "Amazon S3" ∉ name_of <$> top_services d)
  ∧ ∃ d fallback,
      fetch_cloudwatch_billing_metrics Sample.world_total_only = Ok d
      ∧ service_metric_loop Sample.cloudwatch_total_only services_to_check = Ok []
      ∧ fetch_cost_explorer_services Sample.world_total_only None None = Ok fallback
      ∧ name_of <$> top_services d = (get_top_services fallback default_limit).*1
      ∧ month_to_date d = round2 (12346 # 1000).
Proof.
  split.
  - assert (Hr : get_metric_statistics Sample.cloudwatch [("Currency", "USD")]
                 = Ok (MkMetricResponse
                         [MkDatapoint 1 12; MkDatapoint 3 (12346 # 1000)%Q;
                          MkDatapoint 2 (121 # 10)%Q]))
      by reflexivity.
    destruct (billing_metrics_failures_and_fallback Sample.world
                Sample.cloudwatch _ eq_refl eq_refl Hr)
      as (latest & loop_costs & d & _ & Hloop & _ & Hd & _ & _ & Hdirect).
    assert (loop_costs = [("Amazon EC2", (350 # 100)%Q)]) as ->
      by (vm_compute in Hloop; by injection Hloop as <-).
    exists d. split; [exact Hd|].
    destruct Hdirect as [_ Homitted]; [by left|].
    apply (Homitted "AmazonS3" Sample.exn_throttled); [|reflexivity].
    unfold services_to_check. right. by left.
  - assert (Hr : get_metric_statistics Sample.cloudwatch_total_only [("Currency", "USD")]
                 = Ok (MkMetricResponse
                         [MkDatapoint 1 12; MkDatapoint 3 (12346 # 1000)%Q]))
      by reflexivity.
    destruct (billing_metrics_failures_and_fallback Sample.world_total_only
                Sample.cloudwatch_total_only _ eq_refl eq_refl Hr)
      as (latest & loop_costs & d & Hlatest & Hloop & _ & Hd & Hmtd & Hfall & _).
    assert (latest = Some (12346 # 1000)%Q) as ->
      by (vm_compute in Hlatest; by injection Hlatest as <-).
    assert (loop_costs = []) as ->
      by (vm_compute in Hloop; by injection Hloop as <-).
    destruct (Hfall eq_refl) as (fallback & act & Hfb & Htop).
    { unfold Qlt. simpl. lia. }
    exists d, fallback. split_and!; try done.
    rewrite Htop. apply with_activity_names.
Defined.

(* ------------------------------------------------------------------ *)
(** ** The selection of the fetcher at start-up ([main]) *)

Lemma fetch_aws_costs_wraps (w : World) :
  fetch_aws_costs w = fetch_aws_costs_before_credits w.
Proof. unfold fetch_aws_costs. by destruct (fetch_aws_costs_before_credits w). Qed.




(* ------------------------------------------------------------------ *)
(** ** The event source of a service name ([event_source_for]) *)

Lemma startswith_split (p s : string) :
  startswith p s = true → s = (p ++ string_drop (String.length p) s)%string.
Proof.
  revert s. induction p as [|a p IH]; intros [|b s]; simpl; try done.
  destruct (Ascii.eqb a b) eqn:E; [|done].
  apply Ascii.eqb_eq in E as ->. intros H.
  change (String b p ++ string_drop (String.length p) s)%string
    with (String b (p ++ string_drop (String.length p) s)).
  f_equal. by apply IH.
Qed.

Lemma startswith_app (p s : string) : startswith p (p ++ s) = true.
Proof. induction p as [|a p IH]; simpl; [done|]. by rewrite Ascii.eqb_refl. Qed.

Lemma replace_from_skip (old new p s : string) :
  replace_from old new (String.length p) (p ++ s) = replace_from old new 0 s.
Proof. induction p as [|a p IH]; simpl; [by destruct s | done]. Qed.

(** An occurrence at the head is replaced and the scan goes on behind it. *)
Lemma replace_prefix (old new s : string) :
  old ≠ "" → replace old new (old ++ s) = (new ++ replace old new s)%string.
Proof.
  intros Hold. destruct old as [|a old]; [done|].
  unfold replace. change (String a old ++ s)%string with (String a (old ++ s)).
  cbn [replace_from]. change (String a (old ++ s)) with (String a old ++ s)%string.
  rewrite startswith_app. f_equal.
  replace (String.length (String a old) - 1)%nat with (String.length old)
    by (simpl; lia).
  apply replace_from_skip.
Qed.

(** A string without any occurrence is left as it is. *)
Lemma replace_absent (old new s : string) :
  contains old s = false → replace old new s = s.
Proof.
  unfold replace. induction s as [|c s IH]; [done|].
  cbn [contains replace_from]. intros H. apply orb_false_iff in H as [Hs Hc].
  rewrite Hs. f_equal. by apply IH.
Qed.

Lemma replace_stripped (old s : string) :
  old ≠ "" → contains old (strip_prefix old s) = false →
  replace old "" s = strip_prefix old s.
Proof.
  intros Hold. unfold strip_prefix. destruct (startswith old s) eqn:E.
  - intros Hc. rewrite (startswith_split old s E) at 1.
    rewrite replace_prefix by done. simpl. by apply replace_absent.
  - apply replace_absent.
Qed.

(** Removing a one-character pattern leaves no occurrence of it. *)
Lemma replace_space_removes (s : string) : contains " " (replace " " "" s) = false.
Proof.
  unfold replace. induction s as [|c s IH]; [done|].
  cbn [replace_from startswith]. destruct (Ascii.eqb " " c) eqn:E.
  - destruct s; simpl; exact IH.
  - cbn [contains startswith]. rewrite E. simpl.
    destruct (replace_from " " "" 0 s); exact IH.
Qed.

Lemma SERVICE_TO_EVENT_SOURCE_nonempty (service_name event_source : string) :
  SERVICE_TO_EVENT_SOURCE !! service_name = Some event_source →
  String.eqb event_source "" = false.
Proof.
  intros H. apply elem_of_list_to_map_2 in H.
  repeat (apply elem_of_cons in H as [[= _ ->]|H]; [reflexivity|]).
  by apply not_elem_of_nil in H.
Qed.

(** A service name of Cost Explorer that is not in the map and has "AWS "
    in the middle: the program removes it, the derivation that strips
    prefixes keeps it. *)
Lemma event_source_inner_occurrence :
  SERVICE_TO_EVENT_SOURCE !! "Savings Plans for AWS Compute usage" = None
  ∧ event_source_for "Savings Plans for AWS Compute usage"
    = "savingsplansforcomputeusage.amazonaws.com"
  ∧ spec_derive_event_source "Savings Plans for AWS Compute usage"
    = "savingsplansforawscomputeusage.amazonaws.com"
  ∧ event_source_for "Savings Plans for AWS Compute usage"
    ≠ spec_derive_event_source "Savings Plans for AWS Compute usage".
Proof. split_and!; [vm_compute; reflexivity .. | vm_compute; discriminate]. Qed.

(** C9, with "every occurrence" for "prefix".  A name that the map holds
    has the mapped identifier, unchanged.  A name that the map does not
    hold never fails: its identifier is the lower-cased name from which
    every occurrence of "amazon ", then every occurrence of "aws ", then
    every space has been removed, followed by ".amazonaws.com"; no space
    is left in it, and when "amazon " and "aws " occur in the lower-cased
    name as leading prefixes only, it is the identifier that stripping the
    prefixes gives. *)
Theorem event_source_for_derivation (service_name : string) :
  (∀ event_source,
     SERVICE_TO_EVENT_SOURCE !! service_name = Some event_source →
     event_source_for service_name = event_source)
  ∧ (SERVICE_TO_EVENT_SOURCE !! service_name = None →
     let simplified :=
       replace " " "" (replace "aws " "" (replace "amazon " "" (lower service_name))) in
     event_source_for service_name = (simplified ++ ".amazonaws.com")%string
     ∧ contains " " simplified = false
     ∧ (contains "amazon " (strip_prefix "amazon " (lower service_name)) = false →
        contains "aws "
          (strip_prefix "aws " (strip_prefix "amazon " (lower service_name))) = false →
        event_source_for service_name = spec_derive_event_source service_name)).
Proof.
  split.
  - intros event_source H. unfold event_source_for. rewrite H.
    by rewrite (SERVICE_TO_EVENT_SOURCE_nonempty _ _ H).
  - intros H simplified. unfold event_source_for. rewrite H. split_and!.
    + done.
    + apply replace_space_removes.
    + intros Hamazon Haws. unfold derive_event_source, spec_derive_event_source.
      rewrite (replace_stripped "amazon " _ ltac:(done) Hamazon).
      by rewrite (replace_stripped "aws " _ ltac:(done) Haws).
Qed.

Lemma event_source_for_derivation_witness :
  event_source_for "AWS Fargate" = "ecs.amazonaws.com"
  ∧ event_source_for "AWS Cost Explorer" = "costexplorer.amazonaws.com"
  ∧ event_source_for "AWS Cost Explorer" = spec_derive_event_source "AWS Cost Explorer".
Proof.
  destruct (proj2 (event_source_for_derivation "AWS Cost Explorer") eq_refl)
    as (Hderived & _ & Hagree).
  split_and!.
  - apply (proj1 (event_source_for_derivation "AWS Fargate")). reflexivity.
  - rewrite Hderived. reflexivity.
  - apply Hagree; reflexivity.
Defined.

(* ================================================================== *)
(** * Further properties of the sources *)

(* ------------------------------------------------------------------ *)
(** ** More on the ranking *)

Lemma insert_desc_head {A K : Type} (key : A → K) (ltb : K → K → bool)
    (x : A) (l : list A) :
  Forall (fun y => ltb (key x) (key y) = false) l → insert_desc key ltb x l = x :: l.
Proof. destruct 1 as [|y l Hy _]; simpl; [done|]. by rewrite Hy. Qed.

(** Sorting leaves a sorted list as it is. *)
Lemma sorted_desc_fixed {A K : Type} (key : A → K) (ltb : K → K → bool) (l : list A) :
  StronglySorted (fun x y => ltb (key x) (key y) = false) l →
  sorted_desc key ltb l = l.
Proof.
  induction 1 as [|x l Hs IH Hall]; simpl; [done|].
  rewrite IH. by apply insert_desc_head.
Qed.

Lemma descending_not_lt (services : list (string * Q)) :
  descending services.*2 →
  StronglySorted (fun x y : string * Q => Qlt_bool (snd x) (snd y) = false) services.
Proof.
  unfold descending. induction services as [|x l IH]; csimpl; intros H; [constructor|].
  apply StronglySorted_cons in H as [Hall Hs]. constructor; [by apply IH|].
  apply Forall_forall. intros y Hy. apply Qlt_bool_false.
  apply (proj1 (Forall_forall _ _) Hall). by apply (list_elem_of_fmap_2 snd).
Qed.

(** X1.  A list that is already descending by cost is only cut to the
    limit, and ranking a ranking again changes nothing. *)
Theorem get_top_services_of_ranked (services : list (string * Q)) (limit : Z) :
  (descending services.*2 → get_top_services services limit = slice_to services limit)
  ∧ (0 <= limit →
     get_top_services (get_top_services services limit) limit
     = get_top_services services limit).
Proof.
  assert (Hfixed : ∀ l : list (string * Q),
            descending l.*2 → get_top_services l limit = slice_to l limit).
  { intros l Hl. unfold get_top_services.
    by rewrite (sorted_desc_fixed _ _ _ (descending_not_lt l Hl)). }
  split; [apply Hfixed|].
  intros Hlimit. rewrite Hfixed by apply get_top_services_descending.
  unfold get_top_services. rewrite !slice_to_nonneg by done.
  by rewrite take_take, Nat.min_id.
Qed.

Lemma get_top_services_of_ranked_witness :
  let services := [("a", 1%Q); ("b", 2%Q); ("c", 1%Q); ("d", 3%Q)] in
  0 <= 3
  ∧ get_top_services (get_top_services services 3) 3 = get_top_services services 3
  ∧ get_top_services [("d", 3%Q); ("b", 2%Q); ("a", 1%Q)] 2 = [("d", 3%Q); ("b", 2%Q)].
Proof.
  intros services. split; [lia|]. split.
  - apply (proj2 (get_top_services_of_ranked services 3)). lia.
  - apply (proj1 (get_top_services_of_ranked [("d", 3%Q); ("b", 2%Q); ("a", 1%Q)] 2)).
    unfold descending. simpl.
    repeat constructor; unfold Qle; simpl; lia.
Defined.

(** X2.  A limit that is at least the number of services loses none of
    them: the ranking is a rearrangement of the whole input.  A limit of
    zero gives the empty ranking. *)
Theorem get_top_services_keeps_all (services : list (string * Q)) (limit : Z) :
  (Z.of_nat (length services) <= limit →
   get_top_services services limit ≡ₚ services)
  ∧ get_top_services services 0 = [].
Proof.
  split.
  - intros H. unfold get_top_services. rewrite slice_to_nonneg by lia.
    rewrite take_ge by (rewrite sorted_desc_length; lia).
    apply sorted_desc_perm.
  - unfold get_top_services. by rewrite slice_to_nonneg.
Qed.

Lemma get_top_services_keeps_all_witness :
  let services := [("a", 1%Q); ("b", 2%Q); ("c", 1%Q)] in
  Z.of_nat (length services) <= 10
  ∧ get_top_services services 10 ≡ₚ services.
Proof.
  intros services. split; [simpl; lia|].
  apply (proj1 (get_top_services_keeps_all services 10)). simpl. lia.
Defined.

(* ------------------------------------------------------------------ *)
(** ** [format_currency] *)

Lemma two_digits_spelled (n : Z) : 0 <= n < 100 → spells_two_digits n = true.
Proof.
  intros Hn.
  assert (H : forallb spells_two_digits (seqZ 0 100) = true)
    by (vm_compute; reflexivity).
  apply (proj1 (forallb_forall _ _) H).
  apply list_elem_of_In, elem_of_seqZ. lia.
Qed.

Lemma two_digits_inv (n : Z) :
  0 <= n < 100 →
  ∃ d1 d2, two_digits n = String d1 (String d2 EmptyString)
           ∧ is_digit d1 = true ∧ is_digit d2 = true
           ∧ n = 10 * digit_value d1 + digit_value d2.
Proof.
  intros Hn. pose proof (two_digits_spelled n Hn) as H. unfold spells_two_digits in H.
  destruct (two_digits n) as [|d1 [|d2 [|? ?]]]; try discriminate.
  apply andb_true_iff in H as [H H3]. apply andb_true_iff in H as [H1 H2].
  exists d1, d2. split_and!; try done. by apply Z.eqb_eq.
Qed.

Lemma string_length_app (s t : string) :
  String.length (s ++ t) = (String.length s + String.length t)%nat.
Proof. induction s as [|c s IH]; simpl; [done|]. by rewrite IH. Qed.

(** Two strings that end in tails of one length and are equal have equal
    fronts and equal tails. *)
Lemma string_app_inj_tail (s1 s2 t1 t2 : string) :
  (s1 ++ t1 = s2 ++ t2)%string → String.length t1 = String.length t2 →
  s1 = s2 ∧ t1 = t2.
Proof.
  revert s2. induction s1 as [|c s1 IH]; intros [|c' s2] H Hlen; simpl in H.
  - done.
  - apply (f_equal String.length) in H.
    rewrite ?string_length_app in H. simpl in H.
    rewrite ?string_length_app in H. lia.
  - apply (f_equal String.length) in H.
    rewrite ?string_length_app in H. simpl in H.
    rewrite ?string_length_app in H. lia.
  - injection H as -> H. destruct (IH s2 H Hlen) as [-> ->]. done.
Qed.

Lemma round_half_even_nonneg (x : Q) : (0 <= x)%Q → 0 <= round_half_even x.
Proof.
  intros Hx. pose proof (round_half_even_spec x) as Hs. simpl in Hs.
  destruct x as [n d]. unfold Qle in Hx. simpl in *.
  generalize dependent (round_half_even (n # d)). intros r Hs. nia.
Qed.

Lemma Qlt_bool_nonneg (x : Q) : (0 <= x)%Q → Qlt_bool x 0 = false.
Proof. intros Hx. by apply Qlt_bool_false. Qed.

(** The text printed for an amount that is not negative. *)
Lemma format_currency_nonneg (amount : Q) :
  (0 <= amount)%Q →
  let cents := round_half_even (amount * 100) in
  0 <= cents
  ∧ format_currency amount
    = String "$" (pretty (cents / 100) ++ String "." (two_digits (cents mod 100))).
Proof.
  intros Hx cents.
  assert (Hc : 0 <= cents).
  { apply round_half_even_nonneg.
    change 0%Q with (0 * 100)%Q. apply Qmult_le_compat_r; [done|]. unfold Qle. simpl. lia. }
  split; [done|]. unfold format_currency. rewrite Qlt_bool_nonneg by done.
  fold cents. by rewrite Z.abs_eq by done.
Qed.

(** X3.  The text that [format_currency] gives: the dollar sign, a minus
    sign for a negative amount, the whole dollars, a point and exactly two
    digits, which spell the cents of the amount rounded to the nearest
    cent. *)
Theorem format_currency_two_decimals (amount : Q) :
  ∃ d1 d2,
    format_currency amount
    = ("$" ++ (if Qlt_bool amount 0 then "-" else "")
           ++ pretty (cents_of amount / 100)
           ++ "." ++ String d1 (String d2 EmptyString))%string
    ∧ is_digit d1 = true ∧ is_digit d2 = true
    ∧ cents_of amount mod 100 = 10 * digit_value d1 + digit_value d2
    ∧ (inject_Z (cents_of amount) == Qabs (round2 amount) * 100)%Q.
Proof.
  unfold format_currency. fold (cents_of amount).
  destruct (two_digits_inv (cents_of amount mod 100)) as (d1 & d2 & -> & H1 & H2 & H3).
  { apply Z.mod_pos_bound. lia. }
  exists d1, d2. split_and!; try done.
  unfold cents_of, round2, Qabs, Qeq. simpl. lia.
Qed.

(** X4.  Two amounts that are not negative are printed alike exactly when
    they round to the same number of cents. *)
Theorem format_currency_same_text (a b : Q) :
  (0 <= a)%Q → (0 <= b)%Q →
  (format_currency a = format_currency b ↔ round2 a = round2 b).
Proof.
  intros Ha Hb.
  destruct (format_currency_nonneg a Ha) as [Hca ->].
  destruct (format_currency_nonneg b Hb) as [Hcb ->].
  unfold round2.
  set (ca := round_half_even (a * 100)) in *.
  set (cb := round_half_even (b * 100)) in *.
  split.
  - intros [= H].
    destruct (two_digits_inv (ca mod 100)) as (a1 & a2 & Ea & _ & _ & Hva);
      [apply Z.mod_pos_bound; lia|].
    destruct (two_digits_inv (cb mod 100)) as (b1 & b2 & Eb & _ & _ & Hvb);
      [apply Z.mod_pos_bound; lia|].
    rewrite Ea, Eb in H.
    apply string_app_inj_tail in H as [Hwhole [= -> ->]]; [|done].
    apply (inj pretty) in Hwhole.
    assert (E : ca = cb); [|by rewrite E].
    pose proof (Z.div_mod ca 100 ltac:(lia)) as Hda.
    pose proof (Z.div_mod cb 100 ltac:(lia)) as Hdb.
    rewrite Hda, Hdb, Hwhole, Hva, Hvb. done.
  - intros [= ->]. done.
Qed.

Lemma format_currency_same_text_witness :
  (0 <= 1249 # 1000)%Q ∧ (0 <= 5 # 4)%Q
  ∧ format_currency (1249 # 1000) = format_currency (5 # 4).
Proof.
  assert (Ha : (0 <= 1249 # 1000)%Q) by (unfold Qle; simpl; lia).
  assert (Hb : (0 <= 5 # 4)%Q) by (unfold Qle; simpl; lia).
  split; [exact Ha|]. split; [exact Hb|].
  apply (proj2 (format_currency_same_text (1249 # 1000) (5 # 4) Ha Hb)).
  vm_compute. reflexivity.
Defined.

(** A small negative amount keeps its sign in the text. *)
Example format_currency_small_negative : format_currency (-(1 # 1000)) = "$-0.00".
Proof. vm_compute. reflexivity. Qed.

(** X5.  The sources round their amounts to two decimals and the display
    formats them: for an amount that is not negative the rounding does not
    change the text. *)
Theorem format_currency_of_rounded (amount : Q) :
  (0 <= amount)%Q → format_currency (round2 amount) = format_currency amount.
Proof.
  intros Ha.
  destruct (format_currency_nonneg amount Ha) as [Hc ->].
  assert (Hr : (0 <= round2 amount)%Q).
  { unfold round2, Qle. simpl. lia. }
  destruct (format_currency_nonneg (round2 amount) Hr) as [_ ->].
  unfold round2. by rewrite round_half_even_cents.
Qed.

Lemma format_currency_of_rounded_witness :
  (0 <= 12346 # 1000)%Q
  ∧ format_currency (round2 (12346 # 1000)) = format_currency (12346 # 1000).
Proof.
  assert (Ha : (0 <= 12346 # 1000)%Q) by (unfold Qle; simpl; lia).
  split; [exact Ha|]. exact (format_currency_of_rounded (12346 # 1000) Ha).
Defined.

(* ------------------------------------------------------------------ *)
(** ** The per-service aggregation *)

Lemma dict_value_add (m : list (string * Q)) (name name' : string) (cost : Q) :
  dict_value (dict_add m name cost) name'
  = if String.eqb name name' then (dict_value m name' + cost)%Q
    else dict_value m name'.
Proof.
  induction m as [|[k v] m IH]; simpl.
  - by destruct (String.eqb name name').
  - destruct (String.eqb k name) eqn:E; simpl.
    + apply String.eqb_eq in E as ->. by destruct (String.eqb name name').
    + rewrite IH. destruct (String.eqb k name') eqn:E'; [|done].
      apply String.eqb_eq in E' as ->. by rewrite String.eqb_sym, E.
Qed.

Lemma dict_value_elem (m : list (string * Q)) (name : string) (cost : Q) :
  NoDup m.*1 → (name, cost) ∈ m → dict_value m name = cost.
Proof.
  induction m as [|[k v] m IH]; csimpl; intros Hm Hin.
  - by apply not_elem_of_nil in Hin.
  - apply NoDup_cons in Hm as [Hk Hm]. destruct (String.eqb k name) eqn:E.
    + apply String.eqb_eq in E as ->.
      apply elem_of_cons in Hin as [[= ->]|Hin]; [done|].
      exfalso. apply Hk. by apply (list_elem_of_fmap_2 fst) in Hin.
    + apply String.eqb_neq in E.
      apply elem_of_cons in Hin as [[= -> ->]|Hin]; [done | by apply IH].
Qed.

Lemma dict_value_absent (m : list (string * Q)) (name : string) :
  name ∉ m.*1 → dict_value m name = 0%Q.
Proof.
  induction m as [|[k v] m IH]; csimpl; intros Hout; [done|].
  apply not_elem_of_cons in Hout as [Hne Hout].
  destruct (String.eqb k name) eqn:E; [|by apply IH].
  apply String.eqb_eq in E. by subst.
Qed.

Lemma dict_value_present (m : list (string * Q)) (name : string) :
  name ∈ m.*1 → (name, dict_value m name) ∈ m.
Proof.
  induction m as [|[k v] m IH]; csimpl; intros Hin.
  - by apply not_elem_of_nil in Hin.
  - destruct (String.eqb k name) eqn:E.
    + apply String.eqb_eq in E as ->. by left.
    + apply String.eqb_neq in E. apply elem_of_cons in Hin as [->|Hin]; [done|].
      right. by apply IH.
Qed.

(** After the loop of [fetch_cost_explorer_services] the value of a
    service is the sum of its amounts, in the order of the ledger. *)
Lemma by_service_loop_value (groups : list CEGroup) (m m' : list (string * Q))
    (name : string) :
  for_each by_service_step groups m = Ok m' →
  dict_value m' name
  = fold_left Qplus
      (omap (fun g =>
               match Keys g, Amount g with
               | k :: _, Ok cost => if String.eqb k name then Some cost else None
               | _, _ => None
               end) groups)
      (dict_value m name).
Proof.
  revert m. induction groups as [|g groups IH]; intros m H; simpl in H.
  - by injection H as <-.
  - apply bind_ok in H as (m1 & Hstep & H). rewrite (IH m1 H). clear IH H.
    unfold by_service_step, key_at in Hstep. cbn [omap list_omap].
    destruct (Keys g) as [|k keys]; simpl in Hstep; [discriminate|].
    destruct (Amount g) as [cost|e]; simpl in Hstep; [|discriminate].
    injection Hstep as <-. rewrite dict_value_add.
    by destruct (String.eqb k name).
Qed.

(** The same for the second loop of [fetch_aws_costs_before_credits]. *)
Lemma usage_by_service_loop_value (groups : list CEGroup) (m m' : list (string * Q))
    (name : string) :
  for_each usage_by_service_step groups m = Ok m' →
  dict_value m' name
  = fold_left Qplus
      (omap (fun g =>
               match Keys g, Amount g with
               | k :: record_type :: _, Ok cost =>
                   if String.eqb k name && String.eqb record_type "Usage"
                      && Qlt_bool 0 cost
                   then Some cost else None
               | _, _ => None
               end) groups)
      (dict_value m name).
Proof.
  revert m. induction groups as [|g groups IH]; intros m H; simpl in H.
  - by injection H as <-.
  - apply bind_ok in H as (m1 & Hstep & H). rewrite (IH m1 H). clear IH H.
    unfold usage_by_service_step, key_at in Hstep. cbn [omap list_omap].
    destruct (Keys g) as [|k [|record_type keys]]; simpl in Hstep.
    + by injection Hstep as <-.
    + by injection Hstep as <-.
    + destruct (Amount g) as [cost|e]; simpl in Hstep; [|discriminate].
      destruct (String.eqb record_type "Usage") eqn:Er;
        destruct (Qlt_bool 0 cost) eqn:Ec; simpl in Hstep;
        injection Hstep as <-; simpl; rewrite ?dict_value_add;
        rewrite (String.eqb_sym k name); destruct (String.eqb name k); simpl;
        by rewrite ?Er, ?Ec.
Qed.

(** The entries of a breakdown, from the values of the map. *)
Lemma elem_of_drop_negligible_value (m : list (string * Q)) (name : string) (c : Q) :
  NoDup m.*1 →
  (name, c) ∈ drop_negligible m
  ↔ (negligible < dict_value m name)%Q ∧ c = round2 (dict_value m name).
Proof.
  intros Hm. rewrite elem_of_drop_negligible. split.
  - intros (cost & Hin & Hlt & ->). by rewrite (dict_value_elem m name cost Hm Hin).
  - intros [Hlt ->]. exists (dict_value m name). split_and!; try done.
    apply dict_value_present. destruct (decide (name ∈ m.*1)) as [|Hout]; [done|].
    rewrite (dict_value_absent m name Hout) in Hlt. exfalso. revert Hlt.
    unfold negligible, Qlt. simpl. lia.
Qed.

Lemma drop_negligible_names_NoDup (m : list (string * Q)) :
  NoDup m.*1 → NoDup (drop_negligible m).*1.
Proof.
  induction m as [|[k v] m IH]; csimpl; intros Hm; [constructor|].
  apply NoDup_cons in Hm as [Hk Hm].
  destruct (Qlt_bool negligible v); csimpl; [|by apply IH].
  constructor; [|by apply IH].
  intros Hin. apply Hk. apply list_elem_of_fmap in Hin as ([k' c] & -> & Hin).
  apply elem_of_drop_negligible in Hin as (cost & Hin & _).
  by apply (list_elem_of_fmap_2 fst) in Hin.
Qed.

Lemma for_each_returns_iff {A S : Type} (step : S → A → result S) (P : A → Prop)
    (xs : list A) (acc : S) :
  (∀ acc x, (∃ acc', step acc x = Ok acc') ↔ P x) →
  (∃ acc', for_each step xs acc = Ok acc') ↔ Forall P xs.
Proof.
  intros Hstep. revert acc. induction xs as [|x xs IH]; intros acc; simpl.
  - split; [constructor | eauto].
  - rewrite Forall_cons. split.
    + intros (acc' & H). apply bind_ok in H as (acc1 & H1 & H).
      split; [apply (Hstep acc x); eauto | apply (IH acc1); eauto].
    + intros [Hx Hxs]. apply (Hstep acc x) in Hx as [acc1 ->]. simpl.
      by apply IH.
Qed.

Lemma by_service_step_returns (m : list (string * Q)) (g : CEGroup) :
  (∃ m', by_service_step m g = Ok m') ↔ well_formed g.
Proof.
  unfold by_service_step, key_at, well_formed.
  destruct (Keys g) as [|k keys]; simpl.
  - split; [by intros [? ?] | by intros [? _]].
  - destruct (Amount g) as [cost|e]; simpl.
    + split; [intros _; split; [done | eauto] | eauto].
    + split; [by intros [? ?] | by intros [_ [? ?]]].
Qed.

Lemma record_type_step_returns (acc : Q * Q) (g : CEGroup) :
  (∃ acc', record_type_step acc g = Ok acc') ↔ well_formed g.
Proof.
  unfold record_type_step, key_at, well_formed. destruct acc as [usage credit].
  destruct (Keys g) as [|k keys]; simpl.
  - split; [by intros [? ?] | by intros [? _]].
  - destruct (Amount g) as [cost|e]; simpl.
    + split; [intros _; split; [done | eauto]|]. intros _.
      destruct (String.eqb k "Usage"); [eauto|]. destruct (String.eqb k "Credit"); eauto.
    + split; [by intros [? ?] | by intros [_ [? ?]]].
Qed.

Lemma usage_by_service_step_returns (m : list (string * Q)) (g : CEGroup) :
  (∃ m', usage_by_service_step m g = Ok m') ↔ well_formed_keyed g.
Proof.
  unfold usage_by_service_step, key_at, well_formed_keyed.
  destruct (Keys g) as [|k [|record_type keys]]; simpl.
  - split; [intros _ ?; lia | eauto].
  - split; [intros _ ?; lia | eauto].
  - destruct (Amount g) as [cost|e]; simpl.
    + split; [eauto|]. intros _. destruct (_ && _); eauto.
    + split; [by intros [? ?]|]. intros H. destruct H as [? ?]; [lia | done].
Qed.

(** X6.  When the query answers and every group can be read,
    [fetch_cost_explorer_services] lists each service once, and lists
    exactly the services whose amounts over all the days add up to more
    than [0.001], each with that sum rounded to two decimals. *)
Theorem fetch_cost_explorer_services_sums
    (w : World) (start_date end_date : option string)
    (client : CEClient) (response : CEResponse) :
  boto3_installed w = true →
  client_ce w = Ok client →
  get_cost_and_usage client (period_of w start_date end_date) ["SERVICE"] = Ok response →
  Forall well_formed (all_groups response) →
  ∃ breakdown,
    fetch_cost_explorer_services w start_date end_date = Ok breakdown
    ∧ NoDup breakdown.*1
    ∧ ∀ name c,
        (name, c) ∈ breakdown
        ↔ (negligible < py_sum (ledger_amounts name response))%Q
          ∧ c = round2 (py_sum (ledger_amounts name response)).
Proof.
  intros Hboto Hclient Hquery Hgroups.
  apply (for_each_returns_iff by_service_step well_formed (all_groups response) [])
    in Hgroups as [m Hm]; [|intros; apply by_service_step_returns].
  assert (Hnodup : NoDup m.*1).
  { eapply for_each_NoDup; [apply by_service_step_NoDup | exact Hm | apply NoDup_nil_2]. }
  exists (drop_negligible m). split_and!.
  - unfold fetch_cost_explorer_services, import_boto3. rewrite Hboto, Hclient. simpl.
    fold (period_of w start_date end_date). rewrite Hquery. simpl.
    rewrite for_each_group_flat. fold (all_groups response). by rewrite Hm.
  - by apply drop_negligible_names_NoDup.
  - intros name c. rewrite (elem_of_drop_negligible_value m name c Hnodup).
    by rewrite (by_service_loop_value _ _ _ name Hm).
Qed.

Lemma fetch_cost_explorer_services_sums_witness :
  ∃ breakdown,
    fetch_cost_explorer_services Sample.world None None = Ok breakdown
    ∧ ("Amazon S3", (250 # 100)%Q) ∈ breakdown
    ∧ ∀ c, ("AWS Glue", c) ∉ breakdown.
Proof.
  assert (Hgroups : Forall well_formed (all_groups Sample.by_service)).
  { repeat constructor; try discriminate; eexists; reflexivity. }
  destruct (fetch_cost_explorer_services_sums Sample.world None None
              Sample.ce Sample.by_service eq_refl eq_refl eq_refl Hgroups)
    as (breakdown & Hfetch & _ & Hin).
  exists breakdown. split; [exact Hfetch|]. split.
  - apply Hin. split; [unfold negligible, Qlt; vm_compute; reflexivity|].
    vm_compute. reflexivity.
  - intros c Hc. apply Hin in Hc as [Hlt _]. revert Hlt.
    unfold negligible, Qlt. vm_compute. discriminate.
Defined.

Lemma for_each_malformed {S : Type} (step : S → CEGroup → result S)
    (groups : list CEGroup) (acc : S) :
  (∀ acc g, (∃ acc', step acc g = Ok acc') ↔ well_formed g) →
  ¬ Forall well_formed groups → ∃ e, for_each step groups acc = Raise e.
Proof.
  intros Hstep Hbad. destruct (for_each step groups acc) as [acc'|e] eqn:E; [|eauto].
  exfalso. apply Hbad.
  apply (for_each_returns_iff step well_formed groups acc Hstep). eauto.
Qed.

(** X7.  [fetch_cost_explorer_services] never raises and never lists a
    service twice, and its breakdown is all or nothing: without boto3,
    without a client, when the query fails, or when a single group of the
    response cannot be read, the breakdown is empty. *)
Theorem fetch_cost_explorer_services_all_or_nothing
    (w : World) (start_date end_date : option string) :
  ∃ breakdown,
    fetch_cost_explorer_services w start_date end_date = Ok breakdown
    ∧ NoDup breakdown.*1
    ∧ (boto3_installed w = false → breakdown = [])
    ∧ (∀ e, client_ce w = Raise e → breakdown = [])
    ∧ (∀ client e, client_ce w = Ok client →
         get_cost_and_usage client (period_of w start_date end_date) ["SERVICE"]
         = Raise e →
         breakdown = [])
    ∧ (∀ client response, client_ce w = Ok client →
         get_cost_and_usage client (period_of w start_date end_date) ["SERVICE"]
         = Ok response →
         ¬ Forall well_formed (all_groups response) →
         breakdown = []).
Proof.
  destruct (fetch_cost_explorer_services_cases w start_date end_date)
    as (m & Hm & Hfetch & _).
  exists (drop_negligible m). split; [done|].
  split; [by apply drop_negligible_names_NoDup|].
  assert (Hempty : fetch_cost_explorer_services w start_date end_date = Ok [] →
                   drop_negligible m = []).
  { rewrite Hfetch. by intros [= ->]. }
  clear Hfetch. split_and!.
  - intros Hboto. apply Hempty.
    unfold fetch_cost_explorer_services, import_boto3. by rewrite Hboto.
  - intros e Hclient. apply Hempty.
    unfold fetch_cost_explorer_services, import_boto3.
    destruct (boto3_installed w); simpl; [|done]. by rewrite Hclient.
  - intros client e Hclient Hquery. apply Hempty.
    unfold fetch_cost_explorer_services, import_boto3.
    destruct (boto3_installed w); simpl; [|done]. rewrite Hclient. simpl.
    fold (period_of w start_date end_date). by rewrite Hquery.
  - intros client response Hclient Hquery Hbad. apply Hempty.
    unfold fetch_cost_explorer_services, import_boto3.
    destruct (boto3_installed w); simpl; [|done]. rewrite Hclient. simpl.
    fold (period_of w start_date end_date). rewrite Hquery. simpl.
    rewrite for_each_group_flat. fold (all_groups response).
    destruct (for_each_malformed by_service_step (all_groups response) []
                by_service_step_returns Hbad) as [e ->].
    done.
Qed.

Lemma fetch_cost_explorer_services_all_or_nothing_witness :
  fetch_cost_explorer_services Sample.world_without_boto3 None None = Ok [].
Proof.
  destruct (fetch_cost_explorer_services_all_or_nothing
              Sample.world_without_boto3 None None)
    as (breakdown & Hfetch & _ & Hboto & _).
  rewrite Hfetch. f_equal. apply Hboto. reflexivity.
Defined.

(* ------------------------------------------------------------------ *)
(** ** The errors of the live sources *)

Lemma reraise_surfaced {A : Type} (e e' : exn) : @reraise A e = Raise e' → surfaced e'.
Proof.
  unfold reraise, surfaced. destruct (exn_is_import_error e) eqn:Hclass.
  - intros [= <-]. by left.
  - destruct (contains "credentials" (lower (exn_msg e))) eqn:H1; simpl.
    + intros [= <-]. right. by left.
    + destruct (contains "NoCredentialsError" (exn_msg e)) eqn:H2.
      * intros [= <-]. right. by left.
      * intros [= <-]. right. right. done.
Qed.

Lemma try_reraise_surfaced {A : Type} (body : result A) (e : exn) :
  try_except body reraise = Raise e → surfaced e.
Proof. destruct body as [a|e0]; simpl; [done|]. apply reraise_surfaced. Qed.

Lemma reraise_handled {A : Type} (e : exn) : @reraise A e = Raise (handled e).
Proof.
  unfold reraise, handled. destruct (exn_is_import_error e); [done|].
  by destruct (_ || _).
Qed.

Lemma for_each_raises_at {A S : Type} (step : S → A → result S)
    (before after : list A) (x : A) (acc : S) (e : exn) :
  (∀ acc', step acc' x = Raise e) →
  (∀ acc' y, y ∈ before → ∃ acc'', step acc' y = Ok acc'') →
  for_each step (before ++ x :: after) acc = Raise e.
Proof.
  intros Hx. revert acc. induction before as [|y before IH]; intros acc Hbefore; simpl.
  - by rewrite Hx.
  - destruct (Hbefore acc y) as [acc' ->]; [by left|]. simpl.
    apply IH. intros acc'' z Hz. apply Hbefore. by right.
Qed.

(** X8.  What a live source raises when a call inside it fails with the
    exception [e0].  The handlers turn [e0] into the text that asks for
    boto3 if it is an [ImportError], into the text with the three remedies
    if its message mentions "credentials" (in any case) or
    "NoCredentialsError", and leave it as it is otherwise.  That is what
    the source raises when [e0] comes from building the client, from a
    query, or from the amount of the first group that cannot be read in
    the first loop of the usage before credits.  Every exception that a
    live source lets out is of one of these three kinds, and without boto3
    it is the text that asks for boto3, in all four. *)
Theorem live_sources_errors (w : World) (e0 : exn) :
  ((exn_is_import_error e0 = true → handled e0 = MkExn false boto3_required)
   ∧ (exn_is_import_error e0 = false →
      contains "credentials" (lower (exn_msg e0)) = true
      ∨ contains "NoCredentialsError" (exn_msg e0) = true →
      handled e0 = MkExn false credentials_not_found)
   ∧ (exn_is_import_error e0 = false →
      contains "credentials" (lower (exn_msg e0)) = false →
      contains "NoCredentialsError" (exn_msg e0) = false →
      handled e0 = e0))
  ∧ (boto3_installed w = true →
     (client_cloudwatch w = Raise e0 →
      fetch_cloudwatch_billing_metrics w = Raise (handled e0))
     ∧ (∀ cloudwatch, client_cloudwatch w = Ok cloudwatch →
          get_metric_statistics cloudwatch [("Currency", "USD")] = Raise e0 →
          fetch_cloudwatch_billing_metrics w = Raise (handled e0))
     ∧ (client_ce w = Raise e0 →
        fetch_november_costs w = Raise (handled e0)
        ∧ fetch_aws_costs_before_credits w = Raise (handled e0)
        ∧ fetch_aws_costs w = Raise (handled e0))
     ∧ (∀ client, client_ce w = Ok client →
          get_cost_and_usage client ("2025-11-01", "2025-12-01") ["SERVICE"] = Raise e0 →
          fetch_november_costs w = Raise (handled e0))
     ∧ (∀ client, client_ce w = Ok client →
          get_cost_and_usage client (month_start w, today w) ["RECORD_TYPE"] = Raise e0 →
          fetch_aws_costs_before_credits w = Raise (handled e0)
          ∧ fetch_aws_costs w = Raise (handled e0))
     ∧ (∀ client response before g after,
          client_ce w = Ok client →
          get_cost_and_usage client (month_start w, today w) ["RECORD_TYPE"]
          = Ok response →
          all_groups response = before ++ g :: after →
          Forall well_formed before →
          Keys g ≠ [] →
          Amount g = Raise e0 →
          fetch_aws_costs_before_credits w = Raise (handled e0)
          ∧ fetch_aws_costs w = Raise (handled e0))
     ∧ (∀ client response,
          client_ce w = Ok client →
          get_cost_and_usage client (month_start w, today w) ["RECORD_TYPE"]
          = Ok response →
          Forall well_formed (all_groups response) →
          get_cost_and_usage client (month_start w, today w) ["SERVICE"; "RECORD_TYPE"]
          = Raise e0 →
          fetch_aws_costs_before_credits w = Raise (handled e0)
          ∧ fetch_aws_costs w = Raise (handled e0)))
  ∧ (∀ e, fetch_cloudwatch_billing_metrics w = Raise e → surfaced e)
  ∧ (∀ e, fetch_november_costs w = Raise e → surfaced e)
  ∧ (∀ e, fetch_aws_costs_before_credits w = Raise e → surfaced e)
  ∧ (∀ e, fetch_aws_costs w = Raise e → surfaced e)
  ∧ (boto3_installed w = false →
     fetch_cloudwatch_billing_metrics w = Raise (MkExn false boto3_required)
     ∧ fetch_november_costs w = Raise (MkExn false boto3_required)
     ∧ fetch_aws_costs_before_credits w = Raise (MkExn false boto3_required)
     ∧ fetch_aws_costs w = Raise (MkExn false boto3_required)).
Proof.
  split; [|split; [|split_and!]].
  - unfold handled. split_and!.
    + by intros ->.
    + intros -> [->| ->]; [done | by rewrite orb_true_r].
    + by intros -> -> ->.
  - intros Hboto.
    assert (Hwrap : ∀ e, fetch_aws_costs_before_credits w = Raise e →
              fetch_aws_costs_before_credits w = Raise e ∧ fetch_aws_costs w = Raise e).
    { intros e He. by rewrite fetch_aws_costs_wraps. }
    split_and!.
    + intros Hc. unfold fetch_cloudwatch_billing_metrics, import_boto3.
      rewrite Hboto, Hc. simpl. apply reraise_handled.
    + intros cloudwatch Hc Hq. unfold fetch_cloudwatch_billing_metrics, import_boto3.
      rewrite Hboto, Hc. simpl. rewrite Hq. simpl. apply reraise_handled.
    + intros Hc. rewrite fetch_aws_costs_wraps.
      unfold fetch_november_costs, fetch_aws_costs_before_credits, import_boto3.
      rewrite Hboto, Hc. simpl. by rewrite !reraise_handled.
    + intros client Hc Hq. unfold fetch_november_costs, import_boto3.
      rewrite Hboto, Hc. simpl. rewrite Hq. simpl. apply reraise_handled.
    + intros client Hc Hq. apply Hwrap.
      unfold fetch_aws_costs_before_credits, import_boto3.
      rewrite Hboto, Hc. simpl. rewrite Hq. simpl. apply reraise_handled.
    + intros client response before g after Hc Hq Hsplit Hbefore Hkeys Hamount.
      apply Hwrap. unfold fetch_aws_costs_before_credits, import_boto3.
      rewrite Hboto, Hc. simpl. rewrite Hq. simpl.
      rewrite for_each_group_flat. fold (all_groups response). rewrite Hsplit.
      rewrite (for_each_raises_at record_type_step before after g _ e0).
      * simpl. apply reraise_handled.
      * intros [usage credit]. unfold record_type_step, key_at.
        destruct (Keys g) as [|k keys]; [done|]. simpl. by rewrite Hamount.
      * intros acc y Hy. apply record_type_step_returns.
        by apply (proj1 (Forall_forall _ _) Hbefore).
    + intros client response Hc Hq Hwf Hq'. apply Hwrap.
      apply (for_each_returns_iff record_type_step well_formed _ (0%Q, 0%Q)) in Hwf
        as [[usage credit] Hu]; [|apply record_type_step_returns].
      unfold fetch_aws_costs_before_credits, import_boto3.
      rewrite Hboto, Hc. simpl. rewrite Hq. simpl.
      rewrite for_each_group_flat. fold (all_groups response). rewrite Hu. simpl.
      rewrite Hq'. simpl. apply reraise_handled.
  - intros e. apply try_reraise_surfaced.
  - intros e. apply try_reraise_surfaced.
  - intros e. apply try_reraise_surfaced.
  - intros e. rewrite fetch_aws_costs_wraps. apply try_reraise_surfaced.
  - intros Hboto. rewrite fetch_aws_costs_wraps.
    unfold fetch_cloudwatch_billing_metrics, fetch_november_costs,
      fetch_aws_costs_before_credits, import_boto3.
    rewrite Hboto. done.
Qed.

(** A throttled client comes out as it is, missing credentials come out as
    the remediation text, and a missing boto3 as the text that asks for
    it. *)
Lemma live_sources_errors_witness :
  fetch_aws_costs Sample.world_throttled = Raise Sample.exn_throttled
  ∧ fetch_aws_costs Sample.world_without_credentials
    = Raise (MkExn false credentials_not_found)
  ∧ fetch_aws_costs Sample.world_without_boto3 = Raise (MkExn false boto3_required).
Proof.
  split_and!.
  - destruct (live_sources_errors Sample.world_throttled Sample.exn_throttled)
      as ((_ & _ & Hplain) & Hcalls & _).
    destruct (Hcalls eq_refl) as (_ & _ & Hclient & _).
    destruct (Hclient eq_refl) as (_ & _ & Haws).
    rewrite Haws. rewrite Hplain; reflexivity.
  - destruct (live_sources_errors Sample.world_without_credentials
                Sample.exn_no_credentials)
      as ((_ & Hcredentials & _) & Hcalls & _).
    destruct (Hcalls eq_refl) as (_ & _ & Hclient & _).
    destruct (Hclient eq_refl) as (_ & _ & Haws).
    rewrite Haws. rewrite Hcredentials; [reflexivity | reflexivity | by left].
  - destruct (live_sources_errors Sample.world_without_boto3 Sample.exn_throttled)
      as (_ & _ & _ & _ & _ & _ & Hboto).
    by destruct (Hboto eq_refl) as (_ & _ & _ & Haws).
Defined.

(* ------------------------------------------------------------------ *)
(** ** More on usage before credits *)

(** X9.  With boto3, a client and two answered queries,
    [fetch_aws_costs_before_credits] returns a snapshot exactly when every
    group of the first response has a key and a readable amount, and every
    group of the second response that has two keys has a readable amount.
    CloudTrail has no part in it. *)
Theorem fetch_aws_costs_before_credits_returns
    (w : World) (client : CEClient) (response response' : CEResponse) :
  boto3_installed w = true →
  client_ce w = Ok client →
  get_cost_and_usage client (month_start w, today w) ["RECORD_TYPE"] = Ok response →
  get_cost_and_usage client (month_start w, today w) ["SERVICE"; "RECORD_TYPE"]
  = Ok response' →
  (∃ d, fetch_aws_costs_before_credits w = Ok d)
  ↔ Forall well_formed (all_groups response)
    ∧ Forall well_formed_keyed (all_groups response').
Proof.
  intros Hboto Hclient Hq Hq'. split.
  - intros [d Hd].
    apply fetch_aws_costs_before_credits_ok in Hd
      as (client0 & r & u & c & r' & m & act & _ & Hc & Hr & Hu & Hr' & Hm & _ & _).
    rewrite Hclient in Hc. injection Hc as <-.
    rewrite Hq in Hr. injection Hr as <-. rewrite Hq' in Hr'. injection Hr' as <-.
    rewrite for_each_group_flat in Hu. rewrite for_each_group_flat in Hm. split.
    + apply (for_each_returns_iff record_type_step well_formed _ (0%Q, 0%Q));
        [apply record_type_step_returns | eauto].
    + apply (for_each_returns_iff usage_by_service_step well_formed_keyed _ []);
        [apply usage_by_service_step_returns | eauto].
  - intros [Hwf Hwf'].
    apply (for_each_returns_iff record_type_step well_formed _ (0%Q, 0%Q)) in Hwf
      as [[usage credit] Hu]; [|apply record_type_step_returns].
    apply (for_each_returns_iff usage_by_service_step well_formed_keyed _ []) in Hwf'
      as [m Hm]; [|apply usage_by_service_step_returns].
    destruct (fetch_service_activity_returns w
                (get_top_services (drop_negligible m) default_limit).*1) as [act Hact].
    eexists. unfold fetch_aws_costs_before_credits, import_boto3.
    rewrite Hboto, Hclient. simpl. rewrite Hq. simpl.
    rewrite for_each_group_flat. fold (all_groups response). rewrite Hu. simpl.
    rewrite Hq'. simpl.
    rewrite for_each_group_flat. fold (all_groups response'). rewrite Hm. simpl.
    rewrite Hact. simpl. reflexivity.
Qed.

Lemma fetch_aws_costs_before_credits_returns_witness :
  ∃ d, fetch_aws_costs_before_credits Sample.world_without_cloudtrail = Ok d.
Proof.
  apply (proj2 (fetch_aws_costs_before_credits_returns Sample.world_without_cloudtrail
                  Sample.ce Sample.by_record_type Sample.by_service_and_record_type
                  eq_refl eq_refl eq_refl eq_refl)).
  split.
  - repeat constructor; try discriminate; eexists; reflexivity.
  - repeat constructor; intros _; eexists; reflexivity.
Defined.

Lemma fetch_service_activity_unavailable (w : World) (service_names : list string) :
  boto3_installed w = false ∨ (∃ e, client_cloudtrail w = Raise e) →
  fetch_service_activity w service_names = Ok (all_zero service_names).
Proof.
  unfold fetch_service_activity, import_boto3. intros [Hboto|[e He]].
  - by rewrite Hboto.
  - destruct (boto3_installed w); simpl; [|done]. rewrite He. simpl.
    by destruct (exn_is_import_error e).
Qed.

Lemma with_activity_all_zero (names : list string) (top : list (string * Q))
    (entry : string * Q * nat) :
  entry ∈ with_activity (all_zero names) top → entry.2 = 0%nat.
Proof.
  unfold with_activity. intros H.
  apply list_elem_of_fmap in H as ([name cost] & -> & _). simpl.
  rewrite all_zero_lookup. by destruct (decide (name ∈ names)).
Qed.

(** X10.  CloudTrail has no say in the costs.  If the source returns a
    snapshot in one world it returns one in every world that differs in
    the CloudTrail client only, with the same total, the same services in
    the same order, the same costs and the same time; and where the
    CloudTrail client cannot be built every activity count is 0. *)
Theorem fetch_aws_costs_before_credits_ignores_cloudtrail (w w' : World) (d : CostData) :
  same_but_cloudtrail w w' →
  fetch_aws_costs_before_credits w = Ok d →
  ∃ d', fetch_aws_costs_before_credits w' = Ok d'
        ∧ month_to_date d' = month_to_date d
        ∧ name_of <$> top_services d' = name_of <$> top_services d
        ∧ cost_of <$> top_services d' = cost_of <$> top_services d
        ∧ last_updated d' = last_updated d
        ∧ ((∃ e, client_cloudtrail w' = Raise e) →
           ∀ entry, entry ∈ top_services d' → entry.2 = 0%nat).
Proof.
  intros (Hboto & Hce & _ & Hstart & Htoday & Hnow) Hd.
  apply fetch_aws_costs_before_credits_ok in Hd
    as (client & r & u & c & r' & m & act & Hb & Hc & Hr & Hu & Hr' & Hm & _ & ->).
  destruct (fetch_service_activity_returns w'
              (get_top_services (drop_negligible m) default_limit).*1) as [act' Hact'].
  exists (MkCostData (round2 u)
            (with_activity act' (get_top_services (drop_negligible m) default_limit))
            (now w')).
  split_and!.
  - unfold fetch_aws_costs_before_credits, import_boto3.
    rewrite <- Hboto, Hb, <- Hce, Hc, <- Hstart, <- Htoday. simpl.
    rewrite Hr. simpl. rewrite Hu. simpl. rewrite Hr'. simpl. rewrite Hm. simpl.
    by rewrite Hact'.
  - done.
  - simpl. by rewrite !with_activity_names.
  - simpl. by rewrite !with_activity_costs.
  - simpl. done.
  - intros Hfail entry Hentry. simpl in Hentry.
    rewrite (fetch_service_activity_unavailable w' _ (or_intror Hfail)) in Hact'.
    injection Hact' as <-. by apply with_activity_all_zero in Hentry.
Qed.

Lemma fetch_aws_costs_before_credits_ignores_cloudtrail_witness :
  ∃ d d',
    fetch_aws_costs_before_credits Sample.world = Ok d
    ∧ fetch_aws_costs_before_credits Sample.world_without_cloudtrail = Ok d'
    ∧ month_to_date d' = month_to_date d
    ∧ cost_of <$> top_services d' = cost_of <$> top_services d.
Proof.
  destruct (fetch_aws_costs_before_credits Sample.world) as [d|e] eqn:E;
    [|vm_compute in E; discriminate].
  assert (Hsame : same_but_cloudtrail Sample.world Sample.world_without_cloudtrail)
    by (repeat split).
  destruct (fetch_aws_costs_before_credits_ignores_cloudtrail
              Sample.world Sample.world_without_cloudtrail d Hsame E)
    as (d' & Hd' & Hm & _ & Hc & _).
  exists d, d'. split; [reflexivity|]. split; [exact Hd'|]. split; [exact Hm | exact Hc].
Defined.

Lemma get_top_services_names_NoDup (services : list (string * Q)) (limit : Z) :
  NoDup services.*1 → NoDup (get_top_services services limit).*1.
Proof.
  unfold get_top_services.
  destruct (slice_to_take (sorted_desc snd Qlt_bool services) limit) as [k ->].
  intros H. rewrite fmap_take.
  eapply sublist_NoDup; [|apply sublist_take].
  by rewrite sorted_desc_perm.
Qed.

Lemma elem_of_with_activity (activity_data : gmap string nat) (top : list (string * Q))
    (entry : string * Q * nat) :
  entry ∈ with_activity activity_data top →
  (name_of entry, cost_of entry) ∈ top
  ∧ entry.2 = default 0%nat (activity_data !! name_of entry).
Proof.
  unfold with_activity. intros H.
  by apply list_elem_of_fmap in H as ([name cost] & -> & H).
Qed.

(** X11.  In the snapshot of [fetch_aws_costs_before_credits] no service
    is listed twice, and the cost of a listed service is the sum, rounded
    to two decimals, of the amounts of its groups of record type "Usage"
    that are positive; that sum is above [0.001].  Credits, refunds and
    other record types do not lower the cost of a service. *)
Theorem fetch_aws_costs_before_credits_service_costs (w : World) (d : CostData) :
  fetch_aws_costs_before_credits w = Ok d →
  ∃ client response,
    client_ce w = Ok client
    ∧ get_cost_and_usage client (month_start w, today w) ["SERVICE"; "RECORD_TYPE"]
      = Ok response
    ∧ NoDup (name_of <$> top_services d)
    ∧ ∀ entry, entry ∈ top_services d →
        (negligible < py_sum (positive_usage_amounts (name_of entry) response))%Q
        ∧ cost_of entry
          = round2 (py_sum (positive_usage_amounts (name_of entry) response)).
Proof.
  intros Hd.
  apply fetch_aws_costs_before_credits_ok in Hd
    as (client & ? & ? & ? & response & m & act & _ & Hc & _ & _ & Hr & Hm & _ & ->).
  rewrite for_each_group_flat in Hm.
  assert (Hnodup : NoDup m.*1).
  { eapply for_each_NoDup;
      [apply usage_by_service_step_NoDup | exact Hm | apply NoDup_nil_2]. }
  exists client, response. split_and!; try done.
  - simpl. rewrite with_activity_names.
    by apply get_top_services_names_NoDup, drop_negligible_names_NoDup.
  - intros entry Hentry. simpl in Hentry.
    apply elem_of_with_activity in Hentry as [Hentry _].
    apply get_top_services_subset in Hentry.
    apply (elem_of_drop_negligible_value m _ _ Hnodup) in Hentry.
    by rewrite (usage_by_service_loop_value _ _ _ (name_of entry) Hm) in Hentry.
Qed.

Lemma fetch_aws_costs_before_credits_service_costs_witness :
  ∃ d, fetch_aws_costs_before_credits Sample.world = Ok d
       ∧ NoDup (name_of <$> top_services d)
       ∧ ("Amazon EC2", (350 # 100)%Q, 3%nat) ∈ top_services d.
Proof.
  destruct (fetch_aws_costs_before_credits Sample.world) as [d|e] eqn:E;
    [|vm_compute in E; discriminate].
  destruct (fetch_aws_costs_before_credits_service_costs Sample.world d E)
    as (_ & _ & _ & _ & Hnodup & _).
  exists d. split; [reflexivity|]. split; [exact Hnodup|].
  vm_compute in E. injection E as <-. right. by left.
Defined.

(* ------------------------------------------------------------------ *)
(** ** The sign of the costs and of the total *)

Lemma round2_nonneg (x : Q) : (0 <= x)%Q → (0 <= round2 x)%Q.
Proof.
  intros Hx. unfold round2.
  assert (0 <= round_half_even (x * 100)).
  { apply round_half_even_nonneg. change 0%Q with (0 * 100)%Q.
    apply Qmult_le_compat_r; [done|]. unfold Qle. simpl. lia. }
  unfold Qle. simpl. lia.
Qed.

Lemma drop_negligible_nonneg (m : list (string * Q)) (x : string * Q) :
  x ∈ drop_negligible m → (0 <= x.2)%Q.
Proof.
  destruct x as [name c]. intros H.
  apply elem_of_drop_negligible in H as (cost & _ & Hlt & ->). simpl.
  apply round2_nonneg. unfold negligible in Hlt. lra.
Qed.

Lemma metric_entries_nonneg (cloudwatch : CloudWatchClient) (services : list string)
    (x : string * Q) :
  x ∈ omap (metric_entry cloudwatch) services → (0 <= x.2)%Q.
Proof.
  intros H. apply list_elem_of_omap in H as (service & _ & H).
  unfold metric_entry in H.
  destruct (get_metric_statistics _ _) as [response|e]; [|done].
  destruct (latest_maximum response) as [[cost|]|e]; try done.
  destruct (Qlt_bool negligible cost) eqn:Hlt; [|done].
  injection H as <-. simpl. apply Qlt_bool_true in Hlt.
  apply round2_nonneg. unfold negligible in Hlt. lra.
Qed.

(** X12.  No live source lists a service with a negative cost: in the
    snapshot of the billing-metric source, of the usage before credits and
    of November every cost is at least [0]. *)
Theorem live_sources_costs_nonneg (w : World) (d : CostData) :
  fetch_cloudwatch_billing_metrics w = Ok d
  ∨ fetch_aws_costs_before_credits w = Ok d
  ∨ fetch_aws_costs w = Ok d
  ∨ fetch_november_costs w = Ok d →
  ∀ entry, entry ∈ top_services d → (0 <= cost_of entry)%Q.
Proof.
  assert (Hranked : ∀ act m entry,
            entry ∈ with_activity act (get_top_services (drop_negligible m) default_limit) →
            (0 <= cost_of entry)%Q).
  { intros act m entry H. apply elem_of_with_activity in H as [H _].
    apply get_top_services_subset in H. by apply drop_negligible_nonneg in H. }
  rewrite fetch_aws_costs_wraps.
  intros [H|[H|[H|H]]] entry Hentry.
  - apply fetch_cloudwatch_billing_metrics_ok in H
      as (cw & ? & latest & loop_costs & sc & act & _ & _ & _ & _ & Hloop & Hsc & _ & ->).
    cbn [top_services] in Hentry.
    apply elem_of_with_activity in Hentry as [Hentry _].
    apply get_top_services_subset in Hentry.
    destruct (is_empty loop_costs && Qlt_bool 0 (default 0%Q latest)).
    + destruct (fetch_cost_explorer_services_cases w None None) as (m & _ & Hm & _).
      rewrite Hm in Hsc. injection Hsc as <-.
      exact (drop_negligible_nonneg m _ Hentry).
    + injection Hsc as <-. revert Hloop. generalize services_to_check.
      intros services Hloop. rewrite service_metric_loop_entries in Hloop.
      injection Hloop as <-.
      exact (metric_entries_nonneg cw services _ Hentry).
  - apply fetch_aws_costs_before_credits_ok in H
      as (? & ? & ? & ? & ? & m & act & _ & _ & _ & _ & _ & _ & _ & ->).
    exact (Hranked act m entry Hentry).
  - apply fetch_aws_costs_before_credits_ok in H
      as (? & ? & ? & ? & ? & m & act & _ & _ & _ & _ & _ & _ & _ & ->).
    exact (Hranked act m entry Hentry).
  - apply fetch_november_costs_ok in H as (? & ? & m & _ & _ & _ & _ & ->).
    cbn [top_services] in Hentry. rewrite november_filter_spec in Hentry.
    exact (Hranked _ m entry Hentry).
Qed.

Lemma live_sources_costs_nonneg_witness :
  ∃ d, fetch_aws_costs_before_credits Sample.world = Ok d
       ∧ ∀ entry, entry ∈ top_services d → (0 <= cost_of entry)%Q.
Proof.
  destruct (fetch_aws_costs_before_credits Sample.world) as [d|e] eqn:E;
    [|vm_compute in E; discriminate].
  exists d. split; [reflexivity|].
  apply (live_sources_costs_nonneg Sample.world d). right. left. exact E.
Defined.

Lemma fold_left_Qplus_nonneg (xs : list Q) (a : Q) :
  Forall (fun x => 0 <= x)%Q xs → (0 <= a)%Q → (0 <= fold_left Qplus xs a)%Q.
Proof.
  intros H. revert a. induction H as [|x xs Hx _ IH]; intros a Ha; simpl; [done|].
  apply IH. lra.
Qed.

(** A refund booked as usage makes the total negative: the total of the
    usage before credits has no sign of its own. *)
Example month_to_date_of_a_refund :
  ∃ d, fetch_aws_costs_before_credits Sample.world_refund = Ok d
       ∧ month_to_date d = (-250 # 100)%Q ∧ top_services d = [].
Proof. eexists. split; [vm_compute; reflexivity|]. split; reflexivity. Qed.

(** X13.  The total of the usage before credits is not negative as long as
    no ledger line of record type "Usage" has a negative amount. *)
Theorem month_to_date_nonneg (w : World) (d : CostData)
    (client : CEClient) (response : CEResponse) :
  fetch_aws_costs_before_credits w = Ok d →
  client_ce w = Ok client →
  get_cost_and_usage client (month_start w, today w) ["RECORD_TYPE"] = Ok response →
  Forall (fun x => 0 <= x)%Q (ledger_amounts "Usage" response) →
  (0 <= month_to_date d)%Q.
Proof.
  intros Hd Hclient Hquery Hpos.
  apply fetch_aws_costs_before_credits_ok in Hd
    as (client0 & r & u & c & ? & ? & ? & _ & Hc & Hr & Hu & _ & _ & _ & ->).
  rewrite Hclient in Hc. injection Hc as <-. rewrite Hquery in Hr. injection Hr as <-.
  rewrite for_each_group_flat in Hu. apply record_type_loop in Hu as [-> _].
  simpl. apply round2_nonneg. by apply fold_left_Qplus_nonneg.
Qed.

Lemma month_to_date_nonneg_witness :
  ∃ d, fetch_aws_costs_before_credits Sample.world = Ok d ∧ (0 <= month_to_date d)%Q.
Proof.
  destruct (fetch_aws_costs_before_credits Sample.world) as [d|e] eqn:E;
    [|vm_compute in E; discriminate].
  exists d. split; [reflexivity|].
  apply (month_to_date_nonneg Sample.world d Sample.ce Sample.by_record_type E
           eq_refl eq_refl).
  repeat constructor; unfold Qle; simpl; lia.
Defined.

(* ------------------------------------------------------------------ *)
(** ** November *)

Lemma november_filter_total (items : list (string * Q)) (acc : list (string * Q))
    (total : Q) :
  (november_filter items (acc, total)).2
  = fold_left Qplus
      (filter (fun x => Qlt_bool negligible x.2 = true) items).*2 total.
Proof.
  revert acc total. induction items as [|[k v] items IH]; intros acc total; [done|].
  cbn [november_filter]. rewrite filter_cons. cbn [snd].
  destruct (Qlt_bool negligible v) eqn:E.
  - destruct (decide (true = true)) as [_|Hn]; [|done]. csimpl. apply IH.
  - destruct (decide (false = true)) as [Hn|_]; [done|]. apply IH.
Qed.

(** X14.  The November source counts in its total exactly what it may
    list: the total is the sum, rounded to two decimals, of the per-service
    sums that are above [0.001], the negligible services being left out of
    the total as well; it is never negative; and every listed service has
    activity 0. *)
Theorem fetch_november_costs_total (w : World) (d : CostData) :
  fetch_november_costs w = Ok d →
  ∃ client response service_cost_map,
    client_ce w = Ok client
    ∧ get_cost_and_usage client ("2025-11-01", "2025-12-01") ["SERVICE"] = Ok response
    ∧ NoDup service_cost_map.*1
    ∧ (∀ name cost, (name, cost) ∈ service_cost_map →
         cost = py_sum (ledger_amounts name response))
    ∧ month_to_date d
      = round2 (py_sum (filter (fun x => Qlt_bool negligible x.2 = true)
                          service_cost_map).*2)
    ∧ (0 <= month_to_date d)%Q
    ∧ (∀ entry, entry ∈ top_services d → entry.2 = 0%nat).
Proof.
  intros Hd.
  apply fetch_november_costs_ok in Hd as (client & response & m & _ & Hc & Hr & Hm & ->).
  rewrite for_each_group_flat in Hm.
  assert (Hnodup : NoDup m.*1).
  { eapply for_each_NoDup; [apply by_service_step_NoDup | exact Hm | apply NoDup_nil_2]. }
  exists client, response, m. split_and!; try done.
  - intros name cost Hin. rewrite <- (dict_value_elem m name cost Hnodup Hin).
    by rewrite (by_service_loop_value _ _ _ name Hm).
  - simpl. by rewrite november_filter_total.
  - simpl. rewrite november_filter_total. apply round2_nonneg.
    apply fold_left_Qplus_nonneg; [|done].
    apply Forall_forall. intros x Hx.
    apply list_elem_of_fmap in Hx as ([k v] & -> & Hx).
    apply list_elem_of_filter in Hx as [Hx _]. simpl in *.
    apply Qlt_bool_true in Hx. unfold negligible in Hx. lra.
  - intros entry Hentry. simpl in Hentry. by apply with_activity_all_zero in Hentry.
Qed.

Lemma fetch_november_costs_total_witness :
  ∃ d, fetch_november_costs Sample.world = Ok d
       ∧ month_to_date d = (600 # 100)%Q
       ∧ ∀ entry, entry ∈ top_services d → entry.2 = 0%nat.
Proof.
  destruct (fetch_november_costs Sample.world) as [d|e] eqn:E;
    [|vm_compute in E; discriminate].
  destruct (fetch_november_costs_total Sample.world d E)
    as (_ & _ & _ & _ & _ & _ & _ & _ & _ & Hzero).
  exists d. split; [reflexivity|]. split; [|exact Hzero].
  vm_compute in E. by injection E as <-.
Defined.

(* ------------------------------------------------------------------ *)
(** ** The total of the billing-metric source *)

(** Among the points of the latest timestamp the first of the response is
    taken. *)
Lemma latest_maximum_first (response : MetricResponse) :
  Datapoints response ≠ [] →
  ∃ p, p ∈ Datapoints response
       ∧ (∀ q, q ∈ Datapoints response → Timestamp q <= Timestamp p)
       ∧ head (filter (fun q => Timestamp q = Timestamp p) (Datapoints response)) = Some p
       ∧ latest_maximum response = Ok (Some (Maximum p)).
Proof.
  intros Hne.
  destruct (latest_maximum_spec response) as [[Hnil _]|(p0 & _ & _ & Hlatest0)]; [done|].
  unfold latest_maximum in *. destruct (Datapoints response) as [|q0 points] eqn:E; [done|].
  rewrite <- E in *. clear Hlatest0 p0.
  pose proof (sorted_desc_perm Timestamp Z.ltb (Datapoints response)) as Hperm.
  assert (Hs : StronglySorted (fun a b => Timestamp b <= Timestamp a)
                 (sorted_desc Timestamp Z.ltb (Datapoints response))).
  { apply sorted_desc_sorted.
    - intros x y H. by apply Z.ltb_ge in H.
    - intros x y H. apply Z.ltb_lt in H. lia.
    - intros x y z ? ?. lia. }
  destruct (sorted_desc Timestamp Z.ltb (Datapoints response)) as [|p sorted_points] eqn:Es.
  { apply Permutation_nil_l in Hperm. congruence. }
  exists p. split_and!.
  - rewrite <- Hperm. by left.
  - intros q Hq. rewrite <- Hperm in Hq. apply StronglySorted_cons in Hs as [Hall _].
    apply elem_of_cons in Hq as [->|Hq]; [lia|].
    by apply (proj1 (Forall_forall _ _) Hall).
  - rewrite <- (filter_sorted_desc Timestamp Z.ltb
                  (fun q => Timestamp q = Timestamp p) (Datapoints response)).
    + rewrite Es. rewrite filter_cons. by rewrite decide_True by done.
    + intros x y -> ->. apply Z.ltb_irrefl.
  - done.
Qed.

(** X15.  The total of the billing-metric source is the maximum statistic
    of the data point with the latest timestamp, rounded to two decimals;
    when several points share the latest timestamp the first one of the
    response counts; without any data point the total is [0]. *)
Theorem billing_metrics_total_is_latest (w : World) (d : CostData) :
  fetch_cloudwatch_billing_metrics w = Ok d →
  ∃ cloudwatch response,
    client_cloudwatch w = Ok cloudwatch
    ∧ get_metric_statistics cloudwatch [("Currency", "USD")] = Ok response
    ∧ ((Datapoints response = [] ∧ month_to_date d = (0 # 100)%Q)
       ∨ ∃ p, p ∈ Datapoints response
              ∧ (∀ q, q ∈ Datapoints response → Timestamp q <= Timestamp p)
              ∧ head (filter (fun q => Timestamp q = Timestamp p) (Datapoints response))
                = Some p
              ∧ month_to_date d = round2 (Maximum p)).
Proof.
  intros Hd.
  apply fetch_cloudwatch_billing_metrics_ok in Hd
    as (cw & response & latest & ? & ? & ? & _ & Hc & Hr & Hl & _ & _ & _ & ->).
  exists cw, response. split; [done|]. split; [done|].
  destruct (Datapoints response) as [|q0 points] eqn:E.
  - left. split; [done|]. unfold latest_maximum in Hl. rewrite E in Hl.
    injection Hl as <-. reflexivity.
  - right. destruct (latest_maximum_first response) as (p & Hp & Hmax & Hfirst & Hlatest).
    { by rewrite E. }
    rewrite Hlatest in Hl. injection Hl as <-. rewrite E in *.
    exists p. by split_and!.
Qed.

Lemma billing_metrics_total_is_latest_witness :
  ∃ d p,
    fetch_cloudwatch_billing_metrics Sample.world = Ok d
    ∧ Timestamp p = 3
    ∧ month_to_date d = round2 (Maximum p).
Proof.
  destruct (fetch_cloudwatch_billing_metrics Sample.world) as [d|e] eqn:E;
    [|vm_compute in E; discriminate].
  destruct (billing_metrics_total_is_latest Sample.world d E)
    as (cw & response & Hc & Hr & [[Hnil _]|(p & Hp & Hmax & _ & Hmtd)]).
  - injection Hc as <-. injection Hr as <-. discriminate.
  - injection Hc as <-. injection Hr as <-.
    exists d, p. split; [reflexivity|]. split; [|exact Hmtd].
    pose proof (Hmax (MkDatapoint 3 (12346 # 1000)%Q)) as Hthree.
    cbn [Datapoints Timestamp] in Hp, Hthree.
    assert (3 <= Timestamp p) by (apply Hthree; right; by left).
    apply elem_of_cons in Hp as [->|Hp]; [simpl in *; lia|].
    apply elem_of_cons in Hp as [->|Hp]; [reflexivity|].
    apply elem_of_cons in Hp as [->|Hp]; [simpl in *; lia|].
    by apply not_elem_of_nil in Hp.
Defined.

(* ------------------------------------------------------------------ *)
(** ** More on the simulated source *)

Lemma randomize_descending (rnd : Random) :
  (∀ i, (9 # 10 <= uniform rnd i)%Q ∧ (uniform rnd i <= 11 # 10)%Q) →
  StronglySorted (fun x y : string * Q => Qlt_bool x.2 y.2 = false)
    (randomize rnd service_costs_table).
Proof.
  intros Hv.
  pose proof (Hv 0%nat) as [? ?]. pose proof (Hv 1%nat) as [? ?].
  pose proof (Hv 2%nat) as [? ?]. pose proof (Hv 3%nat) as [? ?].
  pose proof (Hv 4%nat) as [? ?]. pose proof (Hv 5%nat) as [? ?].
  pose proof (Hv 6%nat) as [? ?].
  assert (Hc0 : 133 <= round_half_even ((148 # 100) * uniform rnd 0 * 100) <= 163)
    by cents_between 133 163.
  assert (Hc1 : 31 <= round_half_even ((34 # 100) * uniform rnd 1 * 100) <= 37)
    by cents_between 31 37.
  assert (Hc2 : 22 <= round_half_even ((24 # 100) * uniform rnd 2 * 100) <= 26)
    by cents_between 22 26.
  assert (Hc3 : 4 <= round_half_even ((4 # 100) * uniform rnd 3 * 100) <= 4)
    by cents_between 4 4.
  assert (Hc4 : 1 <= round_half_even ((1 # 100) * uniform rnd 4 * 100) <= 1)
    by cents_between 1 1.
  assert (Hc5 : 1 <= round_half_even ((1 # 100) * uniform rnd 5 * 100) <= 1)
    by cents_between 1 1.
  assert (Hc6 : 1 <= round_half_even ((1 # 100) * uniform rnd 6 * 100) <= 1)
    by cents_between 1 1.
  unfold randomize, service_costs_table. simpl. unfold round2.
  revert Hc0 Hc1 Hc2 Hc3 Hc4 Hc5 Hc6.
  generalize (round_half_even ((148 # 100) * uniform rnd 0 * 100)).
  generalize (round_half_even ((34 # 100) * uniform rnd 1 * 100)).
  generalize (round_half_even ((24 # 100) * uniform rnd 2 * 100)).
  generalize (round_half_even ((4 # 100) * uniform rnd 3 * 100)).
  generalize (round_half_even ((1 # 100) * uniform rnd 4 * 100)).
  generalize (round_half_even ((1 # 100) * uniform rnd 5 * 100)).
  generalize (round_half_even ((1 # 100) * uniform rnd 6 * 100)).
  intros n6 n5 n4 n3 n2 n1 n0 Hc0 Hc1 Hc2 Hc3 Hc4 Hc5 Hc6.
  repeat (constructor || (apply Qlt_bool_false; unfold Qle; simpl; lia)).
Qed.

(** X16.  The base costs are far enough apart for the factors not to
    change the order: with factors in [0.9, 1.1] the simulated source lists
    its seven services in the order of the base table, AWS WAF first. *)
Theorem fetch_simulated_costs_order (rnd : Random) (clock : nat) :
  (∀ i, (9 # 10 <= uniform rnd i)%Q ∧ (uniform rnd i <= 11 # 10)%Q) →
  name_of <$> top_services (fetch_simulated_costs rnd clock) = service_costs_table.*1.
Proof.
  intros Hv. rewrite fetch_simulated_costs_names, simulated_ranking_is_whole.
  rewrite (sorted_desc_fixed _ _ _ (randomize_descending rnd Hv)).
  apply randomize_names.
Qed.

Lemma fetch_simulated_costs_order_witness :
  (∀ i, (9 # 10 <= uniform Sample.high_random i)%Q
        ∧ (uniform Sample.high_random i <= 11 # 10)%Q)
  ∧ name_of <$> top_services (fetch_simulated_costs Sample.high_random 0)
    = service_costs_table.*1.
Proof.
  assert (Hv : ∀ i, (9 # 10 <= uniform Sample.high_random i)%Q
                    ∧ (uniform Sample.high_random i <= 11 # 10)%Q).
  { intros i. simpl. split; unfold Qle; simpl; lia. }
  split; [exact Hv|]. exact (fetch_simulated_costs_order Sample.high_random 0 Hv).
Defined.

Lemma activity_range_of (name : string) :
  name ∈ service_costs_table.*1 →
  ∃ lo hi, activity_ranges !! name = Some (lo, hi) ∧ (lo <= hi)%nat.
Proof.
  intros H. unfold service_costs_table in H. csimpl in H.
  repeat (apply elem_of_cons in H as [->|H];
          [eexists _, _; split; [vm_compute; reflexivity | lia]|]).
  by apply not_elem_of_nil in H.
Qed.

(** X17.  When the generator keeps [randint] within its bounds, the
    activity count of every service that the simulated source lists lies
    in the range that the table of ranges gives for that service; the
    default range is never needed. *)
Theorem fetch_simulated_costs_activity (rnd : Random) (clock : nat) :
  (∀ j lo hi, (lo <= hi)%nat → (lo <= randint rnd j lo hi <= hi)%nat) →
  ∀ entry, entry ∈ top_services (fetch_simulated_costs rnd clock) →
    ∃ lo hi, activity_ranges !! name_of entry = Some (lo, hi)
             ∧ (lo <= entry.2 <= hi)%nat.
Proof.
  intros Hrandint entry Hentry.
  unfold fetch_simulated_costs in Hentry. cbn [top_services] in Hentry.
  apply elem_of_lookup_imap in Hentry as (j & [name cost] & -> & Hj).
  assert (Hname : name ∈ service_costs_table.*1).
  { apply list_elem_of_lookup_2 in Hj. rewrite simulated_ranking_is_whole in Hj.
    rewrite sorted_desc_perm in Hj. apply (list_elem_of_fmap_2 fst) in Hj.
    by rewrite randomize_names in Hj. }
  destruct (activity_range_of name Hname) as (lo & hi & Hrange & Hle).
  exists lo, hi. rewrite Hrange. simpl. split; [done|]. by apply Hrandint.
Qed.

Lemma fetch_simulated_costs_activity_witness :
  (∀ j lo hi, (lo <= hi)%nat → (lo <= randint Sample.high_random j lo hi <= hi)%nat)
  ∧ ∀ entry, entry ∈ top_services (fetch_simulated_costs Sample.high_random 0) →
      ∃ lo hi, activity_ranges !! name_of entry = Some (lo, hi)
               ∧ (lo <= entry.2 <= hi)%nat.
Proof.
  assert (H : ∀ j lo hi, (lo <= hi)%nat →
                (lo <= randint Sample.high_random j lo hi <= hi)%nat).
  { intros j lo hi Hle. simpl. lia. }
  split; [exact H|]. exact (fetch_simulated_costs_activity Sample.high_random 0 H).
Defined.

(* ------------------------------------------------------------------ *)
(** ** More on the selection at start-up *)






(* ------------------------------------------------------------------ *)
(** ** The form of an event source *)

Lemma endswith_refl (s : string) : endswith s s = true.
Proof. destruct s; simpl; [done|]. by rewrite Ascii.eqb_refl, String.eqb_refl. Qed.

Lemma endswith_app (front suffix : string) : endswith suffix (front ++ suffix) = true.
Proof.
  induction front as [|c front IH]; [apply endswith_refl|].
  change (String c front ++ suffix)%string with (String c (front ++ suffix)).
  cbn [endswith]. rewrite IH. apply orb_true_r.
Qed.

(** X20.  Whatever the service name, the event source that is looked up
    in CloudTrail ends with ".amazonaws.com": the mapped identifiers do,
    and the derivation appends it. *)
Theorem event_source_for_suffix (service_name : string) :
  endswith ".amazonaws.com" (event_source_for service_name) = true.
Proof.
  unfold event_source_for.
  destruct (SERVICE_TO_EVENT_SOURCE !! service_name) as [event_source|] eqn:E.
  - rewrite (SERVICE_TO_EVENT_SOURCE_nonempty _ _ E).
    apply elem_of_list_to_map_2 in E.
    repeat (apply elem_of_cons in E as [[= _ ->]|E]; [reflexivity|]).
    by apply not_elem_of_nil in E.
  - unfold derive_event_source. apply endswith_app.
Qed.

(* ------------------------------------------------------------------ *)
(** ** Costs and activity together *)

Lemma NoDup_not_later {A : Type} (l : list A) (i : nat) (x : A) :
  NoDup l → l !! i = Some x → x ∉ drop (S i) l.
Proof.
  intros Hl Hi Hx. apply list_elem_of_lookup_1 in Hx as [j Hj].
  rewrite lookup_drop in Hj.
  pose proof (NoDup_lookup l i (S i + j) x Hl Hi Hj). lia.
Qed.

(** With a client and names that are all different, the dictionary holds
    for the [i]-th name the outcome of the [i]-th query. *)
Lemma fetch_service_activity_by_rank (w : World) (client : CloudTrailClient)
    (service_names : list string) (activity : gmap string nat) (i : nat) (name : string) :
  boto3_installed w = true →
  client_cloudtrail w = Ok client →
  NoDup service_names →
  fetch_service_activity w service_names = Ok activity →
  service_names !! i = Some name →
  activity !! name
  = Some (activity_of (lookup_events client i (event_source_for name))).
Proof.
  intros Hboto Hclient Hnodup Hfetch Hi.
  unfold fetch_service_activity, import_boto3 in Hfetch.
  rewrite Hboto, Hclient in Hfetch. simpl in Hfetch.
  destruct (activity_loop client service_names ∅ 0) as (activity' & Hrun & _ & Hin).
  rewrite Hrun in Hfetch. simpl in Hfetch. injection Hfetch as <-.
  apply (Hin i name Hi). by apply NoDup_not_later.
Qed.

(** X21.  How the costs and the activity meet in a snapshot of
    [fetch_aws_costs_before_credits]: with a CloudTrail client, the
    activity count of the service at rank [i] is the number of events that
    the [i]-th lookup, made for the event source of that service,
    returned, and 0 when that lookup raised. *)
Theorem fetch_aws_costs_before_credits_activity
    (w : World) (client : CloudTrailClient) (d : CostData) :
  fetch_aws_costs_before_credits w = Ok d →
  client_cloudtrail w = Ok client →
  ∀ i entry, top_services d !! i = Some entry →
    entry.2 = match lookup_events client i (event_source_for (name_of entry)) with
              | Ok response => length (default [] (Events response))
              | Raise _ => 0%nat
              end.
Proof.
  intros Hd Hclient i entry Hi.
  apply fetch_aws_costs_before_credits_ok in Hd
    as (? & ? & ? & ? & ? & m & act & Hboto & _ & _ & _ & _ & Hm & Hact & ->).
  rewrite for_each_group_flat in Hm.
  assert (Hnodup : NoDup (get_top_services (drop_negligible m) default_limit).*1).
  { apply get_top_services_names_NoDup, drop_negligible_names_NoDup.
    eapply for_each_NoDup;
      [apply usage_by_service_step_NoDup | exact Hm | apply NoDup_nil_2]. }
  cbn [top_services] in Hi. unfold with_activity in Hi.
  apply list_lookup_fmap_Some in Hi as ([name cost] & -> & Hi).
  cbn [snd name_of fst].
  assert (Hname : (get_top_services (drop_negligible m) default_limit).*1 !! i = Some name).
  { rewrite list_lookup_fmap, Hi. done. }
  rewrite (fetch_service_activity_by_rank w client _ act i name Hboto Hclient
             Hnodup Hact Hname).
  simpl. unfold activity_of, count_events.
  by destruct (lookup_events client i (event_source_for name)).
Qed.

Lemma fetch_aws_costs_before_credits_activity_witness :
  ∃ d entry,
    fetch_aws_costs_before_credits Sample.world = Ok d
    ∧ top_services d !! 2%nat = Some entry
    ∧ name_of entry = "Amazon S3"
    ∧ entry.2 = 0%nat.
Proof.
  destruct (fetch_aws_costs_before_credits Sample.world) as [d|e] eqn:E;
    [|vm_compute in E; discriminate].
  pose proof (fetch_aws_costs_before_credits_activity Sample.world Sample.cloudtrail
                d E eq_refl 2%nat) as Hrank.
  exists d. vm_compute in E. injection E as <-.
  exists ("Amazon S3", (250 # 100)%Q, 0%nat).
  split; [reflexivity|]. split; [reflexivity|]. split; [reflexivity|].
  exact (Hrank _ eq_refl).
Defined.

(* ------------------------------------------------------------------ *)
(** ** The breakdown of the per-service loop *)

Lemma metric_entry_name (cloudwatch : CloudWatchClient) (service : string)
    (entry : string * Q) :
  metric_entry cloudwatch service = Some entry → entry.1 = readable_name service.
Proof.
  unfold metric_entry. destruct (get_metric_statistics _ _) as [response|e]; [|done].
  destruct (latest_maximum response) as [[cost|]|e]; try done.
  destruct (Qlt_bool negligible cost); [|done]. by intros [= <-].
Qed.

Lemma metric_entries_sublist (cloudwatch : CloudWatchClient) (services : list string) :
  (omap (metric_entry cloudwatch) services).*1 `sublist_of` (readable_name <$> services).
Proof.
  induction services as [|s services IH]; csimpl; [constructor|].
  destruct (metric_entry cloudwatch s) as [entry|] eqn:E; csimpl.
  - rewrite (metric_entry_name _ _ _ E). by constructor.
  - by constructor.
Qed.

(** X22.  The breakdown of the per-service loop of the billing-metric
    source follows the checklist: its names are readable names of the
    checklist, in the order of the checklist, each at most once, so that
    it has at most 24 entries. *)
Theorem service_metric_loop_follows_checklist (cloudwatch : CloudWatchClient) :
  ∃ breakdown,
    service_metric_loop cloudwatch services_to_check = Ok breakdown
    ∧ breakdown.*1 `sublist_of` (readable_name <$> services_to_check)
    ∧ NoDup breakdown.*1
    ∧ (length breakdown <= 24)%nat.
Proof.
  pose proof readable_names_distinct as Hdistinct.
  assert (Hlen : length (readable_name <$> services_to_check) = 24%nat) by reflexivity.
  revert Hdistinct Hlen. generalize services_to_check. intros services Hdistinct Hlen.
  exists (omap (metric_entry cloudwatch) services).
  pose proof (metric_entries_sublist cloudwatch services) as Hsub.
  split_and!.
  - apply service_metric_loop_entries.
  - exact Hsub.
  - exact (sublist_NoDup _ _ Hdistinct Hsub).
  - apply sublist_length in Hsub. rewrite length_fmap in Hsub. lia.
Qed.
